(** * dd-go-opentracing: the OpenTracing wrapper of DataDog's tracer

    A shallow embedding of [propagation.go] (the text-map propagator) and of
    the tracer facade and span wrapper of package [ddtracer], with the
    properties of their specification.

    Conventions of the embedding.
    - A Go [uint64] is an [N]; the places where the code relies on the
      64-bit range, or wraps around, are written out.
    - A Go [string] is a [string] of 8-bit characters.
    - A method that mutates its receiver is a function from the state before
      the call to the state after it; a carrier written in place is handed
      back next to the error.
    - A Go [error] result is an [option]: [None] is [nil].
    - Pointers handed to the package are taken to be non-nil; the one call
      that is also embedded with a nil pointer among its arguments is
      [Tracer.InjectAny]. *)

From Stdlib Require Import NArith Ascii String List PrimFloat Lia.
From stdpp Require Import base option list strings gmap.

Local Open Scope N_scope.

(** ** Package [strconv]: base-16 formatting and parsing of [uint64]

    [propagation.go] calls [strconv.FormatUint(x, 16)] and
    [strconv.ParseUint(v, 16, 64)].  The two are embedded after
    [strconv/itoa.go] and [strconv/atoi.go] of the Go distribution, for
    these arguments. *)

Module strconv.

Definition maxUint64 : N := 2 ^ 64 - 1.

(** [const digits = "0123456789abcdefghijklmnopqrstuvwxyz"] *)
Definition digits : string := "0123456789abcdefghijklmnopqrstuvwxyz".

(** [digits[d]] *)
Definition digit (d : N) : ascii :=
  match String.get (N.to_nat d) digits with
  | Some c => c
  | None => "000"%char
  end.

(** The loop of [formatBits] for a base that is a power of two, here 16:
    [for u >= b { i--; a[i] = digits[uint(u)&m]; u >>= shift }] and then
    [i--; a[i] = digits[uint(u)]].  The buffer has 65 bytes; [fuel] bounds
    the number of turns of the loop, and 15 turns are enough for any
    64-bit value. *)
Fixpoint formatBits (fuel : nat) (u : N) (a : string) : string :=
  match fuel with
  | O => String (digit u) a
  | S fuel' =>
      if 16 <=? u
      then formatBits fuel' (N.shiftr u 4) (String (digit (N.land u 15)) a)
      else String (digit u) a
  end.

(** [strconv.FormatUint(u, 16)] *)
Definition FormatUint16 (u : N) : string := formatBits 15 u "".

(** The two conditions of [*NumError] that [ParseUint] reports. *)
Inductive NumError := ErrSyntax | ErrRange.

(** [lower(c) = c | ('x' - 'X')] *)
Definition lower (c : N) : N := N.lor c 32.

(** The digit a byte stands for, [None] where [ParseUint] takes its
    [default] branch (the case of ['_'] is for base 0 only). *)
Definition digitVal (c : ascii) : option N :=
  let c := N_of_ascii c in
  if (48 <=? c) && (c <=? 57) then Some (c - 48)
  else if (97 <=? lower c) && (lower c <=? 122) then Some (lower c - 97 + 10)
  else None.

(** [cutoff = maxUint64/16 + 1]: the least [n] with [n*16 > maxUint64]. *)
Definition cutoff : N := maxUint64 / 16 + 1.

(** [maxVal := uint64(1)<<uint(bitSize) - 1] with [bitSize = 64]: the
    shift gives 0 in 64 bits and the subtraction wraps around. *)
Definition maxVal : N := (N.shiftl 1 64 mod 2 ^ 64 + (2 ^ 64 - 1)) mod 2 ^ 64.

(** The loop [for _, c := range []byte(s)] of [ParseUint] with base 16 and
    bit size 64, [n] being the value read so far. *)
Fixpoint parseLoop (s : string) (n : N) : N * option NumError :=
  match s with
  | EmptyString => (n, None)
  | String c s' =>
      match digitVal c with
      | None => (0, Some ErrSyntax)
      | Some d =>
          if 16 <=? d then (0, Some ErrSyntax)
          else if cutoff <=? n then (maxVal, Some ErrRange)
          else
            let n := (n * 16) mod 2 ^ 64 in
            let n1 := (n + d) mod 2 ^ 64 in
            if (n1 <? n) || (maxVal <? n1) then (maxVal, Some ErrRange)
            else parseLoop s' n1
      end
  end.

(** [strconv.ParseUint(s, 16, 64)] *)
Definition ParseUint16 (s : string) : N * option NumError :=
  match s with
  | EmptyString => (0, Some ErrSyntax)
  | _ => parseLoop s 0
  end.

End strconv.

(** ** What is left open of Go's runtime and libraries

    - [unicodeToLower]: what [strings.ToLower] returns for a string that
      holds a byte outside ASCII (Go maps its runes through the Unicode
      tables);
    - [rangeOrder]: the order in which [for k, v := range m] visits the
      entries of a map, which the language leaves open (the properties that
      need it assume that every entry is visited once);
    - [formatFloat64]: how [fmt.Sprint] prints a [float64]. *)
Class Runtime := {
  unicodeToLower : string → string;
  rangeOrder : gmap string string → list (string * string);
  formatFloat64 : float → string;
}.

(** ** Package [strings]

    [strings.ToLower], after [strings/strings.go] of the Go distribution:
    a string of ASCII bytes is lowered byte by byte, any other string rune
    by rune. *)

Module go_strings.

(** The test [c >= utf8.RuneSelf] of the first loop of [ToLower],
    negated, over the whole string. *)
Fixpoint isASCII (s : string) : bool :=
  match s with
  | EmptyString => true
  | String c s' => (N_of_ascii c <? 128) && isASCII s'
  end.

(** [if 'A' <= c && c <= 'Z' { c += 'a' - 'A' }] *)
Definition lowerByte (c : ascii) : ascii :=
  let n := N_of_ascii c in
  if (65 <=? n) && (n <=? 90) then ascii_of_N (n + 32) else c.

Fixpoint lowerBytes (s : string) : string :=
  match s with
  | EmptyString => EmptyString
  | String c s' => String (lowerByte c) (lowerBytes s')
  end.

(** [strings.ToLower] *)
Definition ToLower `{Runtime} (s : string) : string :=
  if isASCII s then lowerBytes s else unicodeToLower s.

End go_strings.

(** ** Package [opentracing]: formats, carriers, errors

    After [propagation.go] and [log/util.go] of opentracing-go. *)

(** A [format interface{}] argument: a value of [type BuiltinFormat byte],
    or a value of any other type. *)
Inductive format :=
| BuiltinFormat (b : N)
| OtherFormat.

Definition Binary : format := BuiltinFormat 0.
Definition TextMap : format := BuiltinFormat 1.
Definition HTTPHeaders : format := BuiltinFormat 2.

#[global] Instance format_eq_dec : EqDecision format.
Proof. solve_decision. Defined.

(** A [carrier interface{}] argument: an [opentracing.TextMapCarrier]
    (a [map[string]string], which is a [TextMapWriter] and a
    [TextMapReader]), or a value of a type that implements neither
    interface.  [opentracing.HTTPHeadersCarrier], whose keys are canonical
    header names with a list of values each, is not part of the
    embedding. *)
Inductive carrier :=
| TextMapCarrier (m : gmap string string)
| OtherCarrier.

(** The errors of [opentracing] that the package returns, and the
    [*strconv.NumError] that [Extract] keeps in its variable [err]. *)
Inductive error :=
| ErrUnsupportedFormat
| ErrInvalidSpanContext
| ErrInvalidCarrier
| ErrSpanContextCorrupted
| NumError (e : strconv.NumError).

(** [TextMapCarrier.Set]: [c[key] = val] *)
Definition TextMapCarrier_Set (key val : string) (c : gmap string string)
  : gmap string string := <[key := val]> c.

(** [TextMapCarrier.ForeachKey], over the entries in the order [range]
    visits them: the first error of the handler ends the loop and is
    returned.  [X] is the state the handler's closure writes. *)
Fixpoint ForeachKey {X : Type} (entries : list (string * string))
    (handler : string → string → X → X * option error) (x : X)
  : X * option error :=
  match entries with
  | [] => (x, None)
  | (k, v) :: rest =>
      match handler k v x with
      | (x', Some e) => (x', Some e)
      | (x', None) => ForeachKey rest handler x'
      end
  end.

(** ** Package [tracer] of dd-trace-go: the span of the underlying client *)

Module tracer.

(** The fields of [tracer.Span] that the wrapper reads or writes. *)
Record Span := mkSpan {
  Name : string;
  Service : string;
  Resource : string;
  Meta : gmap string string;
  Metrics : gmap string float;
  SpanID : N;
  TraceID : N;
  ParentID : N;
}.

(** Modelled from the spec: [Span.SetMeta] of the client, which is not
    part of the repository; it attaches a string value to the span under
    [key]. *)
Definition SetMeta (key value : string) (s : Span) : Span :=
  mkSpan (Name s) (Service s) (Resource s) (<[key := value]> (Meta s))
         (Metrics s) (SpanID s) (TraceID s) (ParentID s).

(** Modelled from the spec: [Span.SetMetric] of the client, which is not
    part of the repository; it attaches a numeric value to the span under
    [key]. *)
Definition SetMetric (key : string) (val : float) (s : Span) : Span :=
  mkSpan (Name s) (Service s) (Resource s) (Meta s)
         (<[key := val]> (Metrics s)) (SpanID s) (TraceID s) (ParentID s).

(** A [context.Context]: it holds a span under the client's key, or none.
    [Span.Context(ctx)] stores the span, [SpanFromContext] reads it. *)
Definition Context := option Span.

Definition Span_Context (s : Span) : Context := Some s.

Definition SpanFromContext (ctx : Context) : option Span := ctx.

End tracer.

(** The assignments [s.Name = ...], [s.Service = ...], [s.Resource = ...]
    to the promoted fields. *)
Definition set_Name (v : string) (s : tracer.Span) : tracer.Span :=
  tracer.mkSpan v (tracer.Service s) (tracer.Resource s) (tracer.Meta s)
    (tracer.Metrics s) (tracer.SpanID s) (tracer.TraceID s) (tracer.ParentID s).

Definition set_Service (v : string) (s : tracer.Span) : tracer.Span :=
  tracer.mkSpan (tracer.Name s) v (tracer.Resource s) (tracer.Meta s)
    (tracer.Metrics s) (tracer.SpanID s) (tracer.TraceID s) (tracer.ParentID s).

Definition set_Resource (v : string) (s : tracer.Span) : tracer.Span :=
  tracer.mkSpan (tracer.Name s) (tracer.Service s) v (tracer.Meta s)
    (tracer.Metrics s) (tracer.SpanID s) (tracer.TraceID s) (tracer.ParentID s).

(** ** Package [ddtracer] *)

(** [type SpanContext struct { ctx context.Context }] *)
Record SpanContext := mkSpanContext { ctx : tracer.Context }.

(** An [opentracing.SpanContext] argument: a [*SpanContext] of this
    package, or a value of another type (the nil interface included). *)
Inductive SpanContextArg :=
| OwnSpanContext (sc : SpanContext)
| ForeignSpanContext.

(** Every value an [opentracing.SpanContext] argument can hold: a nil
    [*SpanContext] (a nil pointer of this package's type in the interface,
    as in [var sc *SpanContext; t.Inject(sc, ...)]), or one of the values
    above. *)
Inductive SpanContextValue :=
| NilSpanContextPointer
| NonNilValue (sm : SpanContextArg).

(** How a call ends: it returns its results, or it panics. *)
Inductive outcome (A : Type) :=
| Returns (results : A)
| Panics.

Arguments Returns {A} results.
Arguments Panics {A}.

(** A value an [interface{}] argument of the span's methods can hold: a
    [float64], a [string], or a value of any other type, which the package
    does nothing with but print it, and which is given by what [fmt.Sprint]
    prints for it. *)
Inductive value :=
| VFloat64 (f : float)
| VString (s : string)
| VOther (printed : string).

(** [fmt.Sprint(value)] *)
Definition Sprint `{Runtime} (v : value) : string :=
  match v with
  | VFloat64 f => formatFloat64 f
  | VString s => s
  | VOther printed => printed
  end.

(** *** propagation.go *)

Definition tracePrefix : string := "dd-trace-".
Definition fieldSpanID : string := tracePrefix +:+ "spanid".
Definition fieldTraceID : string := tracePrefix +:+ "traceid".
Definition fieldParentID : string := tracePrefix +:+ "parentid".

(** [Span.Context]: the span stored in a background context, wrapped. *)
Definition Span_Context (s : tracer.Span) : SpanContext :=
  mkSpanContext (tracer.Span_Context s).

Module textMapPropagator.

(** [Inject]: the carrier after the call, and the error. *)
Definition Inject (span : tracer.Span) (c : carrier) : carrier * option error :=
  match c with
  | TextMapCarrier tm =>
      let tm := TextMapCarrier_Set fieldSpanID
                  (strconv.FormatUint16 (tracer.SpanID span)) tm in
      let tm := TextMapCarrier_Set fieldTraceID
                  (strconv.FormatUint16 (tracer.TraceID span)) tm in
      let tm := if 0 <? tracer.ParentID span
                then TextMapCarrier_Set fieldParentID
                       (strconv.FormatUint16 (tracer.ParentID span)) tm
                else tm in
      (TextMapCarrier tm, None)
  | OtherCarrier => (c, Some ErrInvalidCarrier)
  end.

(** The variables of [Extract] that the closure handed to [ForeachKey]
    captures and assigns. *)
Record vars := mkVars {
  spanID : N;
  traceID : N;
  parentID : N;
  err : option error;
}.

(** The closure [func(k, v string) error] of [Extract]: the variables
    after the call and the error it returns.  Each case assigns both
    results of [ParseUint] before it looks at the error. *)
Definition handler `{Runtime} (k v : string) (x : vars) : vars * option error :=
  let key := go_strings.ToLower k in
  if decide (key = fieldSpanID) then
    let '(n, e) := strconv.ParseUint16 v in
    let x := mkVars n (traceID x) (parentID x) (NumError <$> e) in
    match err x with
    | Some _ => (x, Some ErrSpanContextCorrupted)
    | None => (x, None)
    end
  else if decide (key = fieldTraceID) then
    let '(n, e) := strconv.ParseUint16 v in
    let x := mkVars (spanID x) n (parentID x) (NumError <$> e) in
    match err x with
    | Some _ => (x, Some ErrSpanContextCorrupted)
    | None => (x, None)
    end
  else if decide (key = fieldParentID) then
    let '(n, e) := strconv.ParseUint16 v in
    let x := mkVars (spanID x) (traceID x) n (NumError <$> e) in
    match err x with
    | Some _ => (x, Some ErrSpanContextCorrupted)
    | None => (x, None)
    end
  else (x, None).

(** [var err error; var spanID, traceID, parentID uint64] *)
Definition vars0 : vars := mkVars 0 0 0 None.

(** The body of [Extract] once the carrier is known to be a reader that
    hands out [entries]: the loop, the assignment of its result to [err],
    and the span built from the variables. *)
Definition extractEntries `{Runtime} (entries : list (string * string))
  : option SpanContext * option error :=
  let '(x, e) := ForeachKey entries handler vars0 in
  let x := mkVars (spanID x) (traceID x) (parentID x) e in
  let span := tracer.mkSpan "" "" "" ∅ ∅ (spanID x) (traceID x) (parentID x) in
  (Some (Span_Context span), err x).

(** [Extract]: the context ([None] is the nil interface) and the error. *)
Definition Extract `{Runtime} (c : carrier) : option SpanContext * option error :=
  match c with
  | TextMapCarrier tm => extractEntries (rangeOrder tm)
  | OtherCarrier => (None, Some ErrInvalidCarrier)
  end.

End textMapPropagator.

(** *** The tracer facade *)

Module Tracer.

(** [Tracer.Inject]: the carrier after the call, and the error. *)
Definition Inject (sm : SpanContextArg) (f : format) (c : carrier)
  : carrier * option error :=
  match sm with
  | ForeignSpanContext => (c, Some ErrInvalidSpanContext)
  | OwnSpanContext sc =>
      match tracer.SpanFromContext (ctx sc) with
      | None => (c, Some ErrInvalidSpanContext)
      | Some span =>
          if decide (f = HTTPHeaders) then textMapPropagator.Inject span c
          else (c, Some ErrUnsupportedFormat)
      end
  end.

(** [Tracer.Extract] *)
Definition Extract `{Runtime} (f : format) (c : carrier)
  : option SpanContext * option error :=
  if decide (f = HTTPHeaders) then textMapPropagator.Extract c
  else (None, Some ErrUnsupportedFormat).

(** [Tracer.Inject] again, for every value of [sm].  The type assertion
    of [sm] to [*SpanContext] fails for a value of another type and
    succeeds for a [*SpanContext], nil or not; the selection [sc.ctx] in
    the next statement dereferences [sc], which panics when [sc] is nil,
    before the format or the carrier is looked at. *)
Definition InjectAny (sm : SpanContextValue) (f : format) (c : carrier)
  : outcome (carrier * option error) :=
  match sm with
  | NonNilValue ForeignSpanContext => Returns (c, Some ErrInvalidSpanContext)
  | NilSpanContextPointer => Panics
  | NonNilValue (OwnSpanContext sc) =>
      match tracer.SpanFromContext (ctx sc) with
      | None => Returns (c, Some ErrInvalidSpanContext)
      | Some span =>
          if decide (f = HTTPHeaders)
          then Returns (textMapPropagator.Inject span c)
          else Returns (c, Some ErrUnsupportedFormat)
      end
  end.

End Tracer.

(** *** The span wrapper

    [type Span struct { *tracer.Span }]: the wrapper is the span of the
    client.  A method that returns its receiver [s] is the function that
    gives the span after the call. *)

Definition ServiceTagKey : string := "service".
Definition ResourceTagKey : string := "resource".

(** A [log.Field]: its key and the value [Field.Value()] gives back. *)
Definition Field : Type := string * value.

(** Why [log.InterleavedKVToFields] fails: the number of arguments, or the
    number of the pair whose key is not a string. *)
Inductive FieldsError :=
| NonEvenLen (len : nat)
| NonStringKey (pair : nat).

(** The loop of [log.InterleavedKVToFields], at pair number [i].  A
    [float64] or a [string] value becomes a field of that type; a value of
    another type becomes a field that gives it back, or a string field of
    what [fmt.Sprint] prints for it: in both cases a value that is no
    [float64] and that prints the same. *)
Fixpoint pairFields (i : nat) (keyValues : list value) : list Field + FieldsError :=
  match keyValues with
  | VString key :: val :: rest =>
      match pairFields (S i) rest with
      | inl fields => inl ((key, val) :: fields)
      | inr e => inr e
      end
  | [] => inl []
  | _ => inr (NonStringKey i)
  end.

(** [log.InterleavedKVToFields] *)
Definition InterleavedKVToFields (keyValues : list value) : list Field + FieldsError :=
  if Nat.eqb (Nat.modulo (length keyValues) 2) 0
  then pairFields 0 keyValues
  else inr (NonEvenLen (length keyValues)).

(** The interface value [Span.Tracer] would return. *)
Inductive opentracing_Tracer := DDTracer.

Module Span.

Definition SetOperationName (operationName : string) (s : tracer.Span) : tracer.Span :=
  set_Name operationName s.

Definition setMeta `{Runtime} (key : string) (v : value) (s : tracer.Span) : tracer.Span :=
  let val := Sprint v in
  if decide (key = ServiceTagKey) then set_Service val s
  else if decide (key = ResourceTagKey) then set_Resource val s
  else tracer.SetMeta key val s.

Definition SetTag `{Runtime} (key : string) (v : value) (s : tracer.Span) : tracer.Span :=
  match v with
  | VFloat64 t => tracer.SetMetric key t s
  | _ => setMeta key (VString (Sprint v)) s
  end.

(** [for _, field := range fields { s.SetTag(field.Key(), field.Value()) }] *)
Fixpoint LogFields `{Runtime} (fields : list Field) (s : tracer.Span) : tracer.Span :=
  match fields with
  | [] => s
  | (key, val) :: rest => LogFields rest (SetTag key val s)
  end.

Definition LogKV `{Runtime} (alternatingKeyValues : list value) (s : tracer.Span)
  : tracer.Span :=
  match InterleavedKVToFields alternatingKeyValues with
  | inr _ => s
  | inl fields => LogFields fields s
  end.

(** [func (s *Span) Tracer() opentracing.Tracer { return s.Tracer() }]:
    the method declared on [*Span] hides the one promoted from the
    embedded [*tracer.Span], so the body calls the method itself.  [depth]
    bounds the number of nested calls; [None] says that the call has not
    returned within that bound. *)
Fixpoint Tracer (depth : nat) (s : tracer.Span) : option opentracing_Tracer :=
  match depth with
  | O => None
  | S depth' => Tracer depth' s
  end.

End Span.

(** ** Vocabulary of the properties *)

(** The three identifiers of a context, with the key each travels under
    and the variable of [Extract] that receives it. *)
Inductive field := FSpanID | FTraceID | FParentID.

Definition fieldKey (f : field) : string :=
  match f with
  | FSpanID => fieldSpanID
  | FTraceID => fieldTraceID
  | FParentID => fieldParentID
  end.

Definition fieldVar (f : field) (x : textMapPropagator.vars) : N :=
  match f with
  | FSpanID => textMapPropagator.spanID x
  | FTraceID => textMapPropagator.traceID x
  | FParentID => textMapPropagator.parentID x
  end.

#[global] Instance field_eq_dec : EqDecision field.
Proof. solve_decision. Defined.

(** What [Inject] leaves in an empty carrier. *)
Definition injected (span : tracer.Span) : gmap string string :=
  let tm := <[fieldTraceID := strconv.FormatUint16 (tracer.TraceID span)]>
              (<[fieldSpanID := strconv.FormatUint16 (tracer.SpanID span)]> ∅) in
  if 0 <? tracer.ParentID span
  then <[fieldParentID := strconv.FormatUint16 (tracer.ParentID span)]> tm
  else tm.

(** The identifier of a span that travels as field [f]. *)
Definition fieldOfSpan (f : field) (span : tracer.Span) : N :=
  match f with
  | FSpanID => tracer.SpanID span
  | FTraceID => tracer.TraceID span
  | FParentID => tracer.ParentID span
  end.

(** The span [Extract] builds from three identifiers. *)
Definition extractedSpan (spanID traceID parentID : N) : tracer.Span :=
  tracer.mkSpan "" "" "" ∅ ∅ spanID traceID parentID.

(** A key of a carrier names field [f] when it is the field's key up to
    the case of its letters. *)
Definition names `{Runtime} (k : string) (f : field) : Prop :=
  go_strings.ToLower k = fieldKey f.

#[global] Instance names_dec `{Runtime} (k : string) (f : field) : Decision (names k f).
Proof. unfold names. apply _. Defined.

(** A value is parseable when [ParseUint] reports no error for it. *)
Definition parseable (v : string) : Prop := (strconv.ParseUint16 v).2 = None.

#[global] Instance NumError_eq_dec : EqDecision strconv.NumError.
Proof. solve_decision. Defined.

#[global] Instance parseable_dec (v : string) : Decision (parseable v).
Proof. unfold parseable. apply _. Defined.

(** The entries a carrier hands out are well-formed when every value under
    a key that names a field is parseable. *)
Definition wellFormed `{Runtime} (entries : list (string * string)) : Prop :=
  ∀ k v f, (k, v) ∈ entries → names k f → parseable v.

(** Two bindings that differ at most in the case of the letters of their
    keys: the same value, and keys that [strings.ToLower] makes equal. *)
Definition sameUpToKeyCase `{Runtime} (e1 e2 : string * string) : Prop :=
  go_strings.ToLower e1.1 = go_strings.ToLower e2.1 ∧ e1.2 = e2.2.

(** Two carriers whose bindings differ in the case of the letters of their
    keys only: their bindings can be listed so that they correspond one to
    one.  The order in which each carrier is visited plays no part. *)
Definition differInKeyCaseOnly `{Runtime} (m1 m2 : gmap string string) : Prop :=
  ∃ l1 l2, l1 ≡ₚ map_to_list m1 ∧ l2 ≡ₚ map_to_list m2 ∧
           Forall2 sameUpToKeyCase l1 l2.

(** Every binding of the enumeration [l2] has a counterpart in [l1], with
    the same value and a key that differs in case only. *)
Definition covers `{Runtime} (l1 l2 : list (string * string)) : Prop :=
  ∀ k2 v, (k2, v) ∈ l2 →
    ∃ k1, (k1, v) ∈ l1 ∧ go_strings.ToLower k1 = go_strings.ToLower k2.

(** No field is given two values by the keys of a carrier. *)
Definition singleValued `{Runtime} (m : gmap string string) : Prop :=
  ∀ f k k' v v',
    m !! k = Some v → m !! k' = Some v' → names k f → names k' f → v = v'.

(** The same, letter by letter, for keys of ASCII characters: at each
    position the two characters are equal, or one is a capital letter and
    the other the small letter for it. *)
Definition capitalOf (small capital : ascii) : Prop :=
  65 <= N_of_ascii capital <= 90 ∧ N_of_ascii small = N_of_ascii capital + 32.

Inductive caseVariants : string → string → Prop :=
| caseVariants_nil : caseVariants EmptyString EmptyString
| caseVariants_same c s1 s2 :
    N_of_ascii c < 128 → caseVariants s1 s2 →
    caseVariants (String c s1) (String c s2)
| caseVariants_lower c1 c2 s1 s2 :
    capitalOf c1 c2 → caseVariants s1 s2 →
    caseVariants (String c1 s1) (String c2 s2)
| caseVariants_upper c1 c2 s1 s2 :
    capitalOf c2 c1 → caseVariants s1 s2 →
    caseVariants (String c1 s1) (String c2 s2).

(** A context value is produced by this tracer when it is the
    [*SpanContext] that [Span.Context] builds for some span. *)
Definition producedByTracer (sm : SpanContextArg) : Prop :=
  ∃ span, sm = OwnSpanContext (Span_Context span).

(** The arguments of [LogKV] cannot be paired into fields: their number is
    odd, or some argument in key position is not a string. *)
Definition cannotBePaired (keyValues : list value) : Prop :=
  Nat.Odd (length keyValues) ∨
  ∃ (i : nat) (v : value),
    keyValues !! (2 * i)%nat = Some v ∧ ∀ key, v ≠ VString key.

(** One choice of what the embedding leaves open, to evaluate the
    definitions on examples. *)
Definition sampleRuntime : Runtime :=
  {| unicodeToLower := λ s, s;
     rangeOrder := map_to_list;
     formatFloat64 := λ _, "<float64>"%string |}.

(** Two carriers that bind two keys of the span identifier, the second
    with other capitals than the first, and a runtime whose [range] visits
    the second in the opposite order. *)
Definition twoSpanKeys1 : gmap string string :=
  <["DD-TRACE-SPANID" := "2"]> (<["dd-trace-spanid" := "1"]> ∅).

Definition twoSpanKeys2 : gmap string string :=
  <["Dd-Trace-Spanid" := "2"]> (<["dd-trace-spanid" := "1"]> ∅).

Definition reversingRuntime : Runtime :=
  {| unicodeToLower := λ s, s;
     rangeOrder := λ m, if decide (m = twoSpanKeys2)
                        then reverse (map_to_list m) else map_to_list m;
     formatFloat64 := λ _, "<float64>"%string |}.

(** A span to evaluate the definitions on: trace [0xab], span [0xcd],
    parent [0x12]; and the root span of the same trace. *)
Definition sampleSpan : tracer.Span :=
  tracer.mkSpan "GET /cart" "checkout" "/" ∅ ∅ 205 171 18.

Definition sampleRoot : tracer.Span :=
  tracer.mkSpan "GET /cart" "checkout" "/" ∅ ∅ 205 171 0.

(** Two carriers with the same two bindings, in capitals and in small
    letters. *)
Definition capitalKeys : gmap string string :=
  <["DD-TRACE-SPANID" := "cd"]> (<["DD-TRACE-TRACEID" := "ab"]> ∅).

Definition smallKeys : gmap string string :=
  <["dd-trace-spanid" := "cd"]> (<["dd-trace-traceid" := "ab"]> ∅).

(** ** Starting spans

    [Tracer.StartSpan] and [Tracer.startSpanWithOptions], with what they
    need of opentracing-go ([SpanReference], [StartSpanOptions]) and of
    the client. *)

Inductive SpanReferenceType := ChildOfRef | FollowsFromRef.

(** [opentracing.SpanReference] *)
Record SpanReference := mkSpanReference {
  RefType : SpanReferenceType;
  ReferencedContext : SpanContextArg;
}.

(** [opentracing.StartSpanOptions], without the start time, which the
    package does not read. *)
Record StartSpanOptions := mkStartSpanOptions {
  References : list SpanReference;
  Tags : gmap string value;
}.

(** The constructors of spans of the client, left open: each draws the
    identifier of the new span from the state of the client.
    [DefaultService] is the host name the package reads when it is
    loaded, and [rangeTags] is the order in which [range] visits a map of
    tags. *)
Class Client := {
  clientState : Type;
  NewRootSpan : string → string → string → clientState → tracer.Span * clientState;
  NewChildSpanFromContext : string → tracer.Context → clientState → tracer.Span * clientState;
  DefaultService : string;
  rangeTags : gmap string value → list (string * value);
}.

Definition DefaultResource : string := "/".

(** The loop [for _, ref := range opts.References] of
    [startSpanWithOptions]: [span] is the variable of that name, [None]
    for [nil]; the constructor of the client returns a span, never
    [nil]. *)
Fixpoint childOfReferences `{Client} (op : string) (refs : list SpanReference)
    (span : option tracer.Span) (st : clientState)
  : option tracer.Span * clientState :=
  match refs with
  | [] => (span, st)
  | ref :: rest =>
      match RefType ref, ReferencedContext ref with
      | ChildOfRef, OwnSpanContext p =>
          let '(child, st') := NewChildSpanFromContext op (ctx p) st in
          childOfReferences op rest (Some child) st'
      | _, _ => childOfReferences op rest span st
      end
  end.

(** The loop [for key, value := range opts.Tags { s.SetTag(key, value) }],
    over the tags in the order [range] visits them. *)
Fixpoint applyTags `{Runtime} (tags : list (string * value)) (s : tracer.Span)
  : tracer.Span :=
  match tags with
  | [] => s
  | (key, val) :: rest => applyTags rest (Span.SetTag key val s)
  end.

(** [Tracer.startSpanWithOptions]: the span returned and the state of the
    client after the call. *)
Definition startSpanWithOptions `{Runtime} `{Client} (op : string)
    (opts : StartSpanOptions) (st : clientState) : tracer.Span * clientState :=
  let '(span, st) := childOfReferences op (References opts) None st in
  let '(span, st) :=
    match span with
    | Some span => (span, st)
    | None => NewRootSpan op DefaultService DefaultResource st
    end in
  (applyTags (rangeTags (Tags opts)) span, st).

(** [Tracer.StartSpan]: an option is what its method [Apply] does to the
    options collected so far. *)
Definition StartSpan `{Runtime} `{Client} (op : string)
    (opts : list (StartSpanOptions → StartSpanOptions)) (st : clientState)
  : tracer.Span * clientState :=
  let sso := foldl (λ sso o, o sso) (mkStartSpanOptions [] ∅) opts in
  startSpanWithOptions op sso st.

(** Span [s'] has the name and the identifiers of span [s], and [Inject]
    of its context does to carrier [c] what [Inject] of the context of [s]
    does. *)
Definition sameIdentity (s' s : tracer.Span) (f : format) (c : carrier) : Prop :=
  tracer.Name s' = tracer.Name s ∧
  tracer.SpanID s' = tracer.SpanID s ∧
  tracer.TraceID s' = tracer.TraceID s ∧
  tracer.ParentID s' = tracer.ParentID s ∧
  Tracer.Inject (OwnSpanContext (Span_Context s')) f c
  = Tracer.Inject (OwnSpanContext (Span_Context s)) f c.

(** The client makes the child span of the span in a context a span of
    the same trace, with that span as its parent. *)
Definition clientLinksChildren `{Client} : Prop :=
  ∀ op parent st,
    tracer.TraceID (NewChildSpanFromContext op (Some parent) st).1
    = tracer.TraceID parent ∧
    tracer.ParentID (NewChildSpanFromContext op (Some parent) st).1
    = tracer.SpanID parent.

(** A reference that [startSpanWithOptions] follows: of type [ChildOfRef],
    to a [*SpanContext] of this package. *)
Definition followed (ref : SpanReference) : Prop :=
  RefType ref = ChildOfRef ∧ ∃ p, ReferencedContext ref = OwnSpanContext p.

(** The arguments of [LogKV] for a list of pairs of a key and a value. *)
Fixpoint interleave (pairs : list (string * value)) : list value :=
  match pairs with
  | [] => []
  | (key, val) :: rest => VString key :: val :: interleave rest
  end.

(** What [SetTag key v] leaves on a span: the metric for a [float64], the
    service name, the resource name or the tag for another value. *)
Definition carriesTag `{Runtime} (key : string) (v : value) (s : tracer.Span) : Prop :=
  match v with
  | VFloat64 t => tracer.Metrics s !! key = Some t
  | _ =>
      if decide (key = ServiceTagKey) then tracer.Service s = Sprint v
      else if decide (key = ResourceTagKey) then tracer.Resource s = Sprint v
      else tracer.Meta s !! key = Some (Sprint v)
  end.

(** A client to evaluate the definitions on: its state is the next
    identifier; a root span starts a trace of its own, a child span joins
    the trace of its parent. *)
Definition sampleClient : Client :=
  {| clientState := N;
     NewRootSpan := λ op service resource next,
       (tracer.mkSpan op service resource ∅ ∅ next next 0, next + 1);
     NewChildSpanFromContext := λ op parent next,
       match parent with
       | Some p =>
           (tracer.mkSpan op (tracer.Service p) op ∅ ∅ next
              (tracer.TraceID p) (tracer.SpanID p), next + 1)
       | None => (tracer.mkSpan op "" op ∅ ∅ next next 0, next + 1)
       end;
     DefaultService := "localhost";
     rangeTags := map_to_list |}.

(** ** Vocabulary of the further properties *)

(** The position of a character in an alphabet, counted from [i]. *)
Fixpoint indexFrom (c : ascii) (alphabet : string) (i : N) : option N :=
  match alphabet with
  | EmptyString => None
  | String a rest => if decide (c = a) then Some i else indexFrom c rest (i + 1)
  end.

(** The value of a hexadecimal digit, small or capital. *)
Definition hexDigit (c : ascii) : option N :=
  match indexFrom c "0123456789abcdef" 0 with
  | Some d => Some d
  | None => indexFrom c "0123456789ABCDEF" 0
  end.

(** The number a string of hexadecimal digits denotes after the number
    [n] of the digits before it; [None] when a character is no such
    digit. *)
Fixpoint hexAcc (s : string) (n : N) : option N :=
  match s with
  | EmptyString => Some n
  | String c s' =>
      match hexDigit c with
      | Some d => hexAcc s' (16 * n + d)
      | None => None
      end
  end.

(** The number a base-16 numeral denotes; the empty string is none. *)
Definition hexValue (s : string) : option N :=
  match s with
  | EmptyString => None
  | _ => hexAcc s 0
  end.

(** The shortest base-16 numeral of a 64-bit number, in small letters: one
    to sixteen digits, the first of which is [0] for the number 0 only. *)
Definition isLowerHex (c : ascii) : bool :=
  match indexFrom c "0123456789abcdef" 0 with
  | Some _ => true
  | None => false
  end.

Fixpoint allLowerHex (s : string) : bool :=
  match s with
  | EmptyString => true
  | String c s' => isLowerHex c && allLowerHex s'
  end.

Definition canonicalHex (s : string) : Prop :=
  allLowerHex s = true ∧
  (1 <= String.length s <= 16)%nat ∧
  (s = "0"%string ∨ ∃ c s', s = String c s' ∧ c ≠ "0"%char).

(** The three identifiers of a span are 64-bit values. *)
Definition uint64IDs (span : tracer.Span) : Prop :=
  ∀ f, fieldOfSpan f span < 2 ^ 64.

(** A binding whose key names one of the three fields. *)
Definition namesSomeField `{Runtime} (e : string * string) : Prop :=
  names e.1 FSpanID ∨ names e.1 FTraceID ∨ names e.1 FParentID.

#[global] Instance namesSomeField_dec `{Runtime} (e : string * string) :
  Decision (namesSomeField e).
Proof. unfold namesSomeField. apply _. Defined.

(** What [Inject] leaves in a text map that held [m]. *)
Definition written (span : tracer.Span) (m : gmap string string) : gmap string string :=
  let tm := <[fieldTraceID := strconv.FormatUint16 (tracer.TraceID span)]>
              (<[fieldSpanID := strconv.FormatUint16 (tracer.SpanID span)]> m) in
  if 0 <? tracer.ParentID span
  then <[fieldParentID := strconv.FormatUint16 (tracer.ParentID span)]> tm
  else tm.

(** Field [f] of a span is written by [Inject]: the parent only when it
    is not 0. *)
Definition isWritten (f : field) (span : tracer.Span) : Prop :=
  f = FParentID → 0 < tracer.ParentID span.

(** The root span of another trace: trace [0xabc], span [0xbee]. *)
Definition sampleOtherRoot : tracer.Span :=
  tracer.mkSpan "GET /pay" "billing" "/" ∅ ∅ 3054 2748 0.

(** Tags to evaluate the definitions on. *)
Definition sampleTags : gmap string value :=
  <["env" := VString "prod"]> (<["latency" := VFloat64 12.5%float]> ∅).

(** Options with two references that are followed and two that are not,
    and options with none that is followed. *)
Definition sampleChildOptions : StartSpanOptions :=
  mkStartSpanOptions
    [mkSpanReference ChildOfRef (OwnSpanContext (Span_Context sampleOtherRoot));
     mkSpanReference ChildOfRef (OwnSpanContext (Span_Context sampleSpan));
     mkSpanReference FollowsFromRef (OwnSpanContext (Span_Context sampleRoot));
     mkSpanReference ChildOfRef ForeignSpanContext] ∅.

Definition sampleRootOptions : StartSpanOptions :=
  mkStartSpanOptions
    [mkSpanReference FollowsFromRef (OwnSpanContext (Span_Context sampleSpan));
     mkSpanReference ChildOfRef ForeignSpanContext] ∅.

(** * Properties *)

(** ** [strconv]: parsing what was formatted *)

Example FormatUint16_zero : strconv.FormatUint16 0 = "0"%string.
Proof. reflexivity. Qed.

Example FormatUint16_ab : strconv.FormatUint16 171 = "ab"%string.
Proof. reflexivity. Qed.

Example FormatUint16_max :
  strconv.FormatUint16 strconv.maxUint64 = "ffffffffffffffff"%string.
Proof. vm_compute. reflexivity. Qed.

Example ParseUint16_mixed_case : strconv.ParseUint16 "Ab" = (171, None).
Proof. vm_compute. reflexivity. Qed.

Example ParseUint16_not_hex :
  strconv.ParseUint16 "not-hex" = (0, Some strconv.ErrSyntax).
Proof. vm_compute. reflexivity. Qed.

Example ParseUint16_empty : strconv.ParseUint16 "" = (0, Some strconv.ErrSyntax).
Proof. reflexivity. Qed.

Example ParseUint16_out_of_range :
  strconv.ParseUint16 "10000000000000000" = (strconv.maxUint64, Some strconv.ErrRange).
Proof. vm_compute. reflexivity. Qed.

Lemma digitVal_digit (d : N) :
  d < 16 → strconv.digitVal (strconv.digit d) = Some d.
Proof.
  intros Hd. rewrite <- (N2Nat.id d).
  assert (Hn : (N.to_nat d < 16)%nat) by lia.
  revert Hn. generalize (N.to_nat d). clear d Hd. intros n Hn.
  do 16 (destruct n as [|n]; [reflexivity|]). lia.
Qed.

(** One turn of the parsing loop on the digit that the formatting loop
    wrote for the low four bits of [u]. *)
Lemma parseLoop_digit (hi d : N) (a : string) :
  d < 16 → hi * 16 + d < 2 ^ 64 →
  strconv.parseLoop (String (strconv.digit d) a) hi
  = strconv.parseLoop a (hi * 16 + d).
Proof.
  intros Hd Hu. cbn [strconv.parseLoop].
  rewrite (digitVal_digit d Hd).
  assert (Hcut : strconv.cutoff = 2 ^ 60) by (vm_compute; reflexivity).
  assert (Hmax : strconv.maxVal = 2 ^ 64 - 1) by (vm_compute; reflexivity).
  rewrite Hcut, Hmax.
  destruct (N.leb_spec 16 d) as [?|_]; [lia|].
  destruct (N.leb_spec (2 ^ 60) hi) as [?|Hhi]; [lia|].
  cbv zeta.
  rewrite (N.mod_small (hi * 16)) by lia.
  rewrite (N.mod_small (hi * 16 + d)) by lia.
  destruct (N.ltb_spec (hi * 16 + d) (hi * 16)) as [?|_]; [lia|].
  destruct (N.ltb_spec (2 ^ 64 - 1) (hi * 16 + d)) as [?|_]; [lia|].
  reflexivity.
Qed.

Lemma parseLoop_formatBits (fuel : nat) :
  ∀ (u : N) (a : string),
    u < 2 ^ 64 → u < 16 ^ N.of_nat (S fuel) →
    strconv.parseLoop (strconv.formatBits fuel u a) 0 = strconv.parseLoop a u.
Proof.
  induction fuel as [|fuel IH]; intros u a H64 Hfuel.
  - cbn [strconv.formatBits]. change (16 ^ N.of_nat 1) with 16 in Hfuel.
    rewrite parseLoop_digit by lia. f_equal.
  - cbn [strconv.formatBits].
    destruct (N.leb_spec 16 u) as [Hge|Hlt].
    + rewrite N.shiftr_div_pow2. change (2 ^ 4) with 16.
      change 15 with (N.ones 4). rewrite N.land_ones. change (2 ^ 4) with 16.
      pose proof (N.div_mod u 16 ltac:(lia)) as Hdm.
      pose proof (N.mod_lt u 16 ltac:(lia)) as Hm.
      rewrite IH.
      * rewrite parseLoop_digit by lia. f_equal. lia.
      * apply N.Div0.div_lt_upper_bound. lia.
      * apply N.Div0.div_lt_upper_bound.
        rewrite Nat2N.inj_succ, N.pow_succ_r' in Hfuel. lia.
    + rewrite parseLoop_digit by lia. f_equal.
Qed.

Lemma formatBits_not_empty (fuel : nat) :
  ∀ (u : N) (a : string), strconv.formatBits fuel u a ≠ EmptyString.
Proof.
  induction fuel as [|fuel IH]; intros u a; cbn [strconv.formatBits].
  - discriminate.
  - destruct (16 <=? u); [apply IH | discriminate].
Qed.

(** [ParseUint(FormatUint(u, 16), 16, 64)] gives [u] back, with no error. *)
Lemma ParseUint16_FormatUint16 (u : N) :
  u < 2 ^ 64 → strconv.ParseUint16 (strconv.FormatUint16 u) = (u, None).
Proof.
  intros Hu. unfold strconv.ParseUint16, strconv.FormatUint16.
  pose proof (formatBits_not_empty 15 u "") as Hne.
  destruct (strconv.formatBits 15 u "") as [|c s] eqn:E; [done|].
  rewrite <- E. rewrite parseLoop_formatBits; [reflexivity|lia|].
  change (16 ^ N.of_nat 16) with (2 ^ 64). lia.
Qed.

(** ** The keys of the wire format *)

Lemma fieldKey_inj (f g : field) : fieldKey f = fieldKey g → f = g.
Proof. destruct f, g; first [reflexivity | discriminate]. Qed.

Lemma fieldKey_isASCII (f : field) : go_strings.isASCII (fieldKey f) = true.
Proof. destruct f; reflexivity. Qed.

Lemma fieldKey_lowerBytes (f : field) : go_strings.lowerBytes (fieldKey f) = fieldKey f.
Proof. destruct f; reflexivity. Qed.

(** ** [strings.ToLower] on ASCII keys *)

Lemma caseVariants_isASCII (s1 s2 : string) :
  caseVariants s1 s2 → go_strings.isASCII s1 = true ∧ go_strings.isASCII s2 = true.
Proof.
  induction 1 as [|c s1 s2 Hc _ [IH1 IH2]|c1 c2 s1 s2 [Hr Hc] _ [IH1 IH2]
                 |c1 c2 s1 s2 [Hr Hc] _ [IH1 IH2]];
    cbn [go_strings.isASCII]; rewrite ?IH1, ?IH2; [done|..];
    split; apply andb_true_intro; (split; [apply N.ltb_lt; lia|done]).
Qed.

Lemma lowerByte_capitalOf (small capital : ascii) :
  capitalOf small capital →
  go_strings.lowerByte capital = small ∧ go_strings.lowerByte small = small.
Proof.
  intros [Hr Hc]. unfold go_strings.lowerByte. split.
  - destruct (N.leb_spec 65 (N_of_ascii capital)); [|lia].
    destruct (N.leb_spec (N_of_ascii capital) 90); [|lia].
    cbn [andb]. rewrite <- Hc. apply ascii_N_embedding.
  - destruct (N.leb_spec (N_of_ascii small) 90); [lia|].
    by rewrite andb_false_r.
Qed.

Lemma caseVariants_lowerBytes (s1 s2 : string) :
  caseVariants s1 s2 → go_strings.lowerBytes s1 = go_strings.lowerBytes s2.
Proof.
  induction 1 as [|c s1 s2 _ _ IH|c1 c2 s1 s2 Hc _ IH|c1 c2 s1 s2 Hc _ IH];
    cbn [go_strings.lowerBytes]; [done|by rewrite IH|..];
    apply lowerByte_capitalOf in Hc as [Hcap Hsmall]; rewrite IH; f_equal; congruence.
Qed.

Section Propagation.
Context `{Runtime}.

Lemma ToLower_fieldKey (f : field) : go_strings.ToLower (fieldKey f) = fieldKey f.
Proof.
  unfold go_strings.ToLower. by rewrite fieldKey_isASCII, fieldKey_lowerBytes.
Qed.

(** Keys that differ letter by letter in case only are equal under
    [strings.ToLower]. *)
Lemma caseVariants_ToLower (k1 k2 : string) :
  caseVariants k1 k2 → go_strings.ToLower k1 = go_strings.ToLower k2.
Proof.
  intros Hv. unfold go_strings.ToLower.
  destruct (caseVariants_isASCII _ _ Hv) as [-> ->].
  by apply caseVariants_lowerBytes.
Qed.

(** *** The closure of [Extract] *)

(** The closure looks at a key through [strings.ToLower] only. *)
Lemma handler_key (k1 k2 v : string) (x : textMapPropagator.vars) :
  go_strings.ToLower k1 = go_strings.ToLower k2 →
  textMapPropagator.handler k1 v x = textMapPropagator.handler k2 v x.
Proof. intros Hk. unfold textMapPropagator.handler. by rewrite Hk. Qed.

(** It returns no other error than [ErrSpanContextCorrupted]. *)
Lemma handler_error (k v : string) (x : textMapPropagator.vars) (e : error) :
  (textMapPropagator.handler k v x).2 = Some e → e = ErrSpanContextCorrupted.
Proof.
  unfold textMapPropagator.handler.
  repeat case_decide; destruct (strconv.ParseUint16 v) as [n [ne|]];
    cbn; congruence.
Qed.

(** On a key that names a field, it assigns the field's variable and
    fails exactly when the value is not parseable. *)
Lemma handler_names (k v : string) (x : textMapPropagator.vars) (f : field) :
  names k f →
  fieldVar f (textMapPropagator.handler k v x).1 = (strconv.ParseUint16 v).1 ∧
  (parseable v → (textMapPropagator.handler k v x).2 = None) ∧
  (¬ parseable v →
   (textMapPropagator.handler k v x).2 = Some ErrSpanContextCorrupted).
Proof.
  unfold names, parseable, textMapPropagator.handler. intros Hk.
  destruct f; cbn [fieldKey] in Hk; rewrite Hk;
    repeat (case_decide; [|try done]); try discriminate;
    destruct (strconv.ParseUint16 v) as [n [ne|]]; cbn; done.
Qed.

(** It leaves alone the variable of a field that the key does not name. *)
Lemma handler_other (k v : string) (x : textMapPropagator.vars) (f : field) :
  ¬ names k f →
  fieldVar f (textMapPropagator.handler k v x).1 = fieldVar f x.
Proof.
  unfold names, textMapPropagator.handler. intros Hk.
  destruct f; cbn [fieldKey] in Hk;
    repeat case_decide; try done;
    destruct (strconv.ParseUint16 v) as [n [ne|]]; cbn; done.
Qed.

(** On a key that names no field, it does nothing. *)
Lemma handler_unrecognized (k v : string) (x : textMapPropagator.vars) :
  (∀ f, ¬ names k f) → textMapPropagator.handler k v x = (x, None).
Proof.
  intros Hk. unfold textMapPropagator.handler.
  pose proof (Hk FSpanID). pose proof (Hk FTraceID). pose proof (Hk FParentID).
  unfold names in *. cbn [fieldKey] in *. by repeat case_decide.
Qed.

End Propagation.

(** ** The loop of [Extract] over the entries of a carrier *)

Section Extraction.
Context `{Runtime}.

#[local] Abbreviation handler := textMapPropagator.handler.

Lemma wellFormed_cons (e : string * string) (entries : list (string * string)) :
  wellFormed (e :: entries) → wellFormed entries.
Proof. intros Hwf k v f Hin. apply Hwf. by right. Qed.

Lemma handler_wellFormed (k v : string) (entries : list (string * string))
    (x : textMapPropagator.vars) :
  wellFormed ((k, v) :: entries) → (handler k v x).2 = None.
Proof.
  intros Hwf.
  destruct (handler k v x).2 as [e|] eqn:E; [|done].
  assert (Hnames : ∃ f, names k f).
  { destruct (decide (names k FSpanID)); [eauto|].
    destruct (decide (names k FTraceID)); [eauto|].
    destruct (decide (names k FParentID)); [eauto|].
    rewrite handler_unrecognized in E; [done|]. by intros []. }
  destruct Hnames as [f Hf].
  destruct (handler_names k v x f Hf) as (_ & Hok & _).
  rewrite Hok in E; [done|]. eapply Hwf; [left|done].
Qed.

Lemma ForeachKey_cons_ok (k v : string) (rest : list (string * string))
    (x : textMapPropagator.vars) :
  (handler k v x).2 = None →
  ForeachKey ((k, v) :: rest) handler x = ForeachKey rest handler (handler k v x).1.
Proof. cbn [ForeachKey]. by destruct (handler k v x) as [x' [e|]]. Qed.

Lemma ForeachKey_cons_fail (k v : string) (rest : list (string * string))
    (x : textMapPropagator.vars) (e : error) :
  (handler k v x).2 = Some e →
  ForeachKey ((k, v) :: rest) handler x = ((handler k v x).1, Some e).
Proof.
  cbn [ForeachKey]. destruct (handler k v x) as [x' [e'|]]; cbn; congruence.
Qed.

(** Corresponding entries that differ in the case of their keys only give
    the same run of the loop. *)
Lemma ForeachKey_key_case (l1 l2 : list (string * string)) :
  Forall2 sameUpToKeyCase l1 l2 →
  ∀ x, ForeachKey l1 handler x = ForeachKey l2 handler x.
Proof.
  induction 1 as [|[k1 v1] [k2 v2] l1 l2 [Hk Hv] _ IH]; intros x; [done|].
  cbn in Hk, Hv. subst v2. cbn [ForeachKey].
  rewrite (handler_key k1 k2 v1 x Hk).
  destruct (handler k2 v1 x) as [x' [e|]]; [done|apply IH].
Qed.

(** The loop ends without an error on well-formed entries... *)
Lemma ForeachKey_wellFormed (entries : list (string * string)) :
  wellFormed entries → ∀ x, (ForeachKey entries handler x).2 = None.
Proof.
  induction entries as [|[k v] rest IH]; intros Hwf x; [done|].
  rewrite ForeachKey_cons_ok by by eapply handler_wellFormed.
  apply IH. by eapply wellFormed_cons.
Qed.

(** ... and with [ErrSpanContextCorrupted] as soon as some entry names a
    field and has a value that is not parseable, wherever it stands. *)
Lemma ForeachKey_corrupted (entries : list (string * string)) (k v : string) (f : field) :
  (k, v) ∈ entries → names k f → ¬ parseable v →
  ∀ x, (ForeachKey entries handler x).2 = Some ErrSpanContextCorrupted.
Proof.
  intros Hin Hf Hv.
  induction entries as [|[k' v'] rest IH]; intros x; [by apply elem_of_nil in Hin|].
  destruct (handler k' v' x).2 as [e|] eqn:E.
  - rewrite (ForeachKey_cons_fail _ _ _ _ e E). cbn.
    by rewrite (handler_error _ _ _ _ E).
  - rewrite ForeachKey_cons_ok by done.
    apply elem_of_cons in Hin as [[= <- <-]|Hin]; [|by apply IH].
    destruct (handler_names k v x f Hf) as (_ & _ & Hfail).
    rewrite Hfail in E; done.
Qed.

(** The entry at which the closure fails is the last one it is called on:
    what follows it in the enumeration has no effect. *)
Lemma ForeachKey_abort (before after : list (string * string)) (k v : string) (f : field) :
  names k f → ¬ parseable v →
  ∀ x, ForeachKey (before ++ (k, v) :: after) handler x
       = ForeachKey (before ++ [(k, v)]) handler x.
Proof.
  intros Hf Hv.
  induction before as [|[k' v'] before IH]; intros x.
  - cbn [app]. destruct (handler_names k v x f Hf) as (_ & _ & Hfail).
    by rewrite !(ForeachKey_cons_fail _ _ _ _ _ (Hfail Hv)).
  - cbn [app ForeachKey]. destruct (handler k' v' x) as [x' [e|]]; [done|apply IH].
Qed.

(** The variable of a field that no key names keeps its value. *)
Lemma ForeachKey_absent (entries : list (string * string)) (f : field) :
  (∀ k v, (k, v) ∈ entries → ¬ names k f) →
  ∀ x, fieldVar f (ForeachKey entries handler x).1 = fieldVar f x.
Proof.
  induction entries as [|[k v] rest IH]; intros Habs x; [done|].
  cbn [ForeachKey].
  pose proof (handler_other k v x f (Habs k v (list_elem_of_here _ _))) as Hother.
  destruct (handler k v x) as [x' [e|]]; cbn in *; [done|].
  rewrite IH; [done|]. intros k' v' Hin. apply (Habs k' v'). by right.
Qed.

(** The variable of a field that a key names receives the value under that
    key, when the entries are well-formed and give the field one value. *)
Lemma ForeachKey_present (entries : list (string * string)) (k v : string) (f : field) :
  wellFormed entries → (k, v) ∈ entries → names k f →
  (∀ k' v', (k', v') ∈ entries → names k' f → v' = v) →
  ∀ x, fieldVar f (ForeachKey entries handler x).1 = (strconv.ParseUint16 v).1.
Proof.
  intros Hwf Hin Hf Huniq.
  assert (Hgen : ∀ x,
    fieldVar f (ForeachKey entries handler x).1 = (strconv.ParseUint16 v).1 ∨
    (fieldVar f (ForeachKey entries handler x).1 = fieldVar f x ∧
     ∀ k' v', (k', v') ∈ entries → ¬ names k' f)).
  { clear Hin. induction entries as [|[k' v'] rest IH]; intros x.
    - right. split; [done|]. intros ?? Hnil. by apply elem_of_nil in Hnil.
    - rewrite ForeachKey_cons_ok by by eapply handler_wellFormed.
      destruct (IH (wellFormed_cons _ _ Hwf)
                   (λ k0 v0 Hin0, Huniq k0 v0 (list_elem_of_further _ _ _ Hin0))
                   (handler k' v' x).1) as [Hval|[Hsame Hnone]]; [by left|].
      destruct (decide (names k' f)) as [Hk'|Hk'].
      + left. rewrite Hsame.
        destruct (handler_names k' v' x f Hk') as (-> & _).
        by rewrite (Huniq k' v' (list_elem_of_here _ _) Hk').
      + right. split; [by rewrite Hsame, handler_other|].
        intros k0 v0 [[= -> ->]|Hin0]%elem_of_cons; [done|by eapply Hnone]. }
  intros x. destruct (Hgen x) as [Hval|[_ Hnone]]; [done|].
  by destruct (Hnone k v Hin).
Qed.

Lemma names_cases (k : string) : (∃ f, names k f) ∨ (∀ f, ¬ names k f).
Proof.
  destruct (decide (names k FSpanID)); [eauto|].
  destruct (decide (names k FTraceID)); [eauto|].
  destruct (decide (names k FParentID)); [eauto|].
  right. by intros [].
Qed.

(** The closure fails only on a key that names a field and a value that is
    not parseable. *)
Lemma handler_fails (k v : string) (x : textMapPropagator.vars) (e : error) :
  (handler k v x).2 = Some e → ∃ f, names k f ∧ ¬ parseable v.
Proof.
  intros E. destruct (names_cases k) as [[f Hf]|Hnone].
  - exists f. split; [done|]. intros Hv.
    destruct (handler_names k v x f Hf) as (_ & Hok & _).
    rewrite (Hok Hv) in E. discriminate.
  - rewrite handler_unrecognized in E by done. discriminate.
Qed.

Lemma ForeachKey_fails (entries : list (string * string)) :
  ∀ x e, (ForeachKey entries handler x).2 = Some e →
         ∃ k v f, (k, v) ∈ entries ∧ names k f ∧ ¬ parseable v.
Proof.
  induction entries as [|[k v] rest IH]; intros x e E; [done|].
  destruct (handler k v x).2 as [e'|] eqn:Eh.
  - destruct (handler_fails _ _ _ _ Eh) as (f & Hf & Hv).
    exists k, v, f. split; [left|done].
  - rewrite ForeachKey_cons_ok in E by done.
    destruct (IH _ _ E) as (k' & v' & f & Hin & Hf & Hv).
    exists k', v', f. split; [by right|done].
Qed.

Lemma ForeachKey_ok_wellFormed (entries : list (string * string))
    (x : textMapPropagator.vars) :
  (ForeachKey entries handler x).2 = None → wellFormed entries.
Proof.
  intros E k v f Hin Hf. destruct (decide (parseable v)) as [|Hv]; [done|].
  rewrite (ForeachKey_corrupted _ k v f Hin Hf Hv) in E. discriminate.
Qed.

Lemma covers_names (l1 l2 : list (string * string)) (k2 v : string) (f : field) :
  covers l1 l2 → (k2, v) ∈ l2 → names k2 f → ∃ k1, (k1, v) ∈ l1 ∧ names k1 f.
Proof.
  intros Hc Hin Hf. destruct (Hc k2 v Hin) as (k1 & Hin1 & Hk).
  exists k1. split; [done|]. unfold names in *. by rewrite Hk.
Qed.

(** Success or failure of the loop does not depend on the order of the
    entries, nor on the case of their keys. *)
Lemma ForeachKey_error_covers (l1 l2 : list (string * string))
    (x1 x2 : textMapPropagator.vars) :
  covers l1 l2 → covers l2 l1 →
  (ForeachKey l1 handler x1).2 = (ForeachKey l2 handler x2).2.
Proof.
  intros H12 H21.
  destruct (ForeachKey l1 handler x1).2 as [e1|] eqn:E1.
  - destruct (ForeachKey_fails _ _ _ E1) as (k & v & f & Hin & Hf & Hv).
    destruct (covers_names _ _ _ _ _ H21 Hin Hf) as (k2 & Hin2 & Hf2).
    rewrite (ForeachKey_corrupted _ k2 v f Hin2 Hf2 Hv).
    destruct (ForeachKey l1 handler x1) as [x' e'] eqn:E. cbn in E1. subst e'.
    assert (Hsnd : (ForeachKey l1 handler x1).2 = Some e1) by by rewrite E.
    rewrite (ForeachKey_corrupted _ k v f Hin Hf Hv) in Hsnd. congruence.
  - destruct (ForeachKey l2 handler x2).2 as [e2|] eqn:E2; [|done].
    destruct (ForeachKey_fails _ _ _ E2) as (k & v & f & Hin & Hf & Hv).
    destruct (covers_names _ _ _ _ _ H12 Hin Hf) as (k1 & Hin1 & Hf1).
    rewrite (ForeachKey_corrupted _ k1 v f Hin1 Hf1 Hv) in E1. discriminate.
Qed.

(** On success, and when no field is given two values, the variables after
    the loop do not depend on them either. *)
Lemma ForeachKey_vars_covers (l1 l2 : list (string * string))
    (x : textMapPropagator.vars) (f : field) :
  covers l1 l2 → covers l2 l1 →
  (ForeachKey l1 handler x).2 = None →
  (∀ k k' v v', (k, v) ∈ l1 → (k', v') ∈ l1 → names k f → names k' f → v = v') →
  fieldVar f (ForeachKey l1 handler x).1 = fieldVar f (ForeachKey l2 handler x).1.
Proof.
  intros H12 H21 Hok Hsingle.
  assert (Hwf1 : wellFormed l1) by by eapply ForeachKey_ok_wellFormed.
  assert (Hwf2 : wellFormed l2).
  { intros k2 v g Hin Hg.
    destruct (covers_names _ _ _ _ _ H12 Hin Hg) as (k1 & Hin1 & Hg1).
    by eapply Hwf1. }
  destruct (decide (Exists (λ e, names e.1 f) l1)) as [Hex|Hnone].
  - apply Exists_exists in Hex as ([k v] & Hin & Hf). cbn in Hf.
    destruct (covers_names _ _ _ _ _ H21 Hin Hf) as (k2 & Hin2 & Hf2).
    rewrite (ForeachKey_present l1 k v f), (ForeachKey_present l2 k2 v f); try done.
    + intros k' v' Hin' Hf'.
      destruct (covers_names _ _ _ _ _ H12 Hin' Hf') as (k1 & Hin1 & Hf1).
      by eapply Hsingle.
    + intros k' v' Hin' Hf'. by eapply Hsingle.
  - rewrite !ForeachKey_absent; [done|..].
    + intros k2 v Hin Hf.
      destruct (covers_names _ _ _ _ _ H12 Hin Hf) as (k1 & Hin1 & Hf1).
      apply Hnone, Exists_exists. by exists (k1, v).
    + intros k v Hin Hf. apply Hnone, Exists_exists. by exists (k, v).
Qed.

(** What [Extract] returns for a carrier that hands out [entries], from the
    run of the loop. *)
Lemma extractEntries_unfold (entries : list (string * string)) :
  textMapPropagator.extractEntries entries
  = (Some (Span_Context
             (tracer.mkSpan "" "" "" ∅ ∅
                (fieldVar FSpanID (ForeachKey entries handler textMapPropagator.vars0).1)
                (fieldVar FTraceID (ForeachKey entries handler textMapPropagator.vars0).1)
                (fieldVar FParentID (ForeachKey entries handler textMapPropagator.vars0).1))),
     (ForeachKey entries handler textMapPropagator.vars0).2).
Proof.
  unfold textMapPropagator.extractEntries.
  by destruct (ForeachKey entries handler textMapPropagator.vars0) as [x e].
Qed.

End Extraction.

(** ** Injection and extraction through the tracer *)

Section Wire.
Context `{Runtime}.

(** [range] visits every entry of a map once. *)
Hypothesis range_visits_each_entry_once :
  ∀ m : gmap string string, rangeOrder m ≡ₚ map_to_list m.

#[local] Abbreviation handler := textMapPropagator.handler.

Lemma rangeOrder_elem (m : gmap string string) (k v : string) :
  (k, v) ∈ rangeOrder m ↔ m !! k = Some v.
Proof. by rewrite range_visits_each_entry_once, elem_of_map_to_list. Qed.

Lemma Tracer_Extract_unfold (m : gmap string string) :
  Tracer.Extract HTTPHeaders (TextMapCarrier m)
  = (Some (Span_Context
             (extractedSpan
                (fieldVar FSpanID (ForeachKey (rangeOrder m) handler textMapPropagator.vars0).1)
                (fieldVar FTraceID (ForeachKey (rangeOrder m) handler textMapPropagator.vars0).1)
                (fieldVar FParentID (ForeachKey (rangeOrder m) handler textMapPropagator.vars0).1))),
     (ForeachKey (rangeOrder m) handler textMapPropagator.vars0).2).
Proof.
  unfold Tracer.Extract. rewrite decide_True by done.
  cbn [textMapPropagator.Extract]. apply extractEntries_unfold.
Qed.

Lemma Tracer_Inject_empty (span : tracer.Span) :
  Tracer.Inject (OwnSpanContext (Span_Context span)) HTTPHeaders (TextMapCarrier ∅)
  = (TextMapCarrier (injected span), None).
Proof.
  unfold Tracer.Inject. cbn. rewrite decide_True by done.
  unfold injected, TextMapCarrier_Set. by destruct (0 <? tracer.ParentID span).
Qed.

Lemma injected_lookup (span : tracer.Span) (k v : string) :
  injected span !! k = Some v ↔
  ∃ f, k = fieldKey f ∧ v = strconv.FormatUint16 (fieldOfSpan f span) ∧
       (f = FParentID → 0 < tracer.ParentID span).
Proof.
  unfold injected. destruct (N.ltb_spec 0 (tracer.ParentID span)) as [Hp|Hp].
  - rewrite !lookup_insert_Some, lookup_empty. split.
    + intros [[<- <-]|[_ [[<- <-]|[_ [[<- <-]|[_ [=]]]]]]];
        [by exists FParentID|by exists FTraceID|by exists FSpanID].
    + intros ([] & -> & -> & _); cbn [fieldKey fieldOfSpan].
      * right. split; [done|]. right. split; [done|]. by left.
      * right. split; [done|]. by left.
      * by left.
  - rewrite !lookup_insert_Some, lookup_empty. split.
    + intros [[<- <-]|[_ [[<- <-]|[_ [=]]]]];
        [exists FTraceID|exists FSpanID]; (split_and!; [done..|discriminate]).
    + intros ([] & -> & -> & Hpar); cbn [fieldKey fieldOfSpan].
      * right. split; [done|]. by left.
      * by left.
      * specialize (Hpar eq_refl). lia.
Qed.

(** Extraction reads back every identifier that [Inject] wrote to an empty
    carrier, and [0] for the parent that it did not write. *)
Lemma Extract_injected (span : tracer.Span) :
  (∀ f, fieldOfSpan f span < 2 ^ 64) →
  Tracer.Extract HTTPHeaders (TextMapCarrier (injected span))
  = (Some (Span_Context
             (extractedSpan (tracer.SpanID span) (tracer.TraceID span)
                (tracer.ParentID span))),
     None).
Proof.
  intros Hrange.
  assert (Hwf : wellFormed (rangeOrder (injected span))).
  { intros k v f (g & -> & -> & _)%rangeOrder_elem%injected_lookup _.
    unfold parseable. by rewrite ParseUint16_FormatUint16. }
  assert (Hvar : ∀ f,
    fieldVar f (ForeachKey (rangeOrder (injected span)) handler
                  textMapPropagator.vars0).1 = fieldOfSpan f span).
  { intros f.
    destruct (decide (f = FParentID ∧ tracer.ParentID span = 0)) as [[-> Hp]|Hpresent].
    - rewrite ForeachKey_absent; [cbn; by rewrite Hp|].
      intros k v (g & -> & _ & Hg)%rangeOrder_elem%injected_lookup Hk.
      unfold names in Hk. rewrite ToLower_fieldKey in Hk.
      apply fieldKey_inj in Hk. specialize (Hg Hk). lia.
    - rewrite (ForeachKey_present _ (fieldKey f)
                 (strconv.FormatUint16 (fieldOfSpan f span)) f); [| |..].
      + by rewrite ParseUint16_FormatUint16.
      + done.
      + apply rangeOrder_elem, injected_lookup. exists f.
        split_and!; [done..|]. intros ->.
        destruct (decide (tracer.ParentID span = 0)); [by destruct Hpresent|lia].
      + apply ToLower_fieldKey.
      + intros k v (g & -> & -> & _)%rangeOrder_elem%injected_lookup Hk.
        unfold names in Hk. rewrite ToLower_fieldKey in Hk.
        by apply fieldKey_inj in Hk as ->. }
  rewrite Tracer_Extract_unfold, !Hvar.
  by rewrite ForeachKey_wellFormed.
Qed.

(** C1. Round trip: for every span whose trace, span and parent
    identifiers are 64-bit values and whose parent identifier is greater
    than 0, [Inject] of the span's context into an empty text-map carrier
    succeeds, and [Extract] from the carrier it wrote succeeds with a
    context that holds the same three identifiers, whatever the order in
    which the carrier's keys are visited. *)
Theorem inject_extract_round_trip (span : tracer.Span) :
  tracer.TraceID span < 2 ^ 64 →
  tracer.SpanID span < 2 ^ 64 →
  tracer.ParentID span < 2 ^ 64 →
  0 < tracer.ParentID span →
  ∃ c extracted,
    Tracer.Inject (OwnSpanContext (Span_Context span)) HTTPHeaders (TextMapCarrier ∅)
    = (c, None) ∧
    Tracer.Extract HTTPHeaders c = (Some (Span_Context extracted), None) ∧
    tracer.TraceID extracted = tracer.TraceID span ∧
    tracer.SpanID extracted = tracer.SpanID span ∧
    tracer.ParentID extracted = tracer.ParentID span.
Proof.
  intros Ht Hs Hp _.
  eexists _, _. split; [apply Tracer_Inject_empty|].
  split; [apply Extract_injected; by intros []|done].
Qed.

(** C2. Corrupted input: when some key of the carrier names a recognized
    field (compared without regard to case) and its value is not parseable
    as a base-16 unsigned 64-bit integer, [Extract] returns
    [ErrSpanContextCorrupted]; and the entry at which the parse fails ends
    the extraction: whatever order the keys are visited in, the result is
    that of the visit up to and including that entry. *)
Theorem Extract_corrupted (m : gmap string string) (k v : string) (f : field) :
  m !! k = Some v → names k f → ¬ parseable v →
  (Tracer.Extract HTTPHeaders (TextMapCarrier m)).2 = Some ErrSpanContextCorrupted ∧
  ∀ before after,
    rangeOrder m = before ++ (k, v) :: after →
    Tracer.Extract HTTPHeaders (TextMapCarrier m)
    = textMapPropagator.extractEntries (before ++ [(k, v)]).
Proof.
  intros Hm Hk Hv. split.
  - rewrite Tracer_Extract_unfold. cbn [snd].
    apply (ForeachKey_corrupted _ k v f); [by apply rangeOrder_elem|done..].
  - intros before after Horder.
    unfold Tracer.Extract. rewrite decide_True by done.
    cbn [textMapPropagator.Extract]. rewrite Horder.
    unfold textMapPropagator.extractEntries.
    by rewrite (ForeachKey_abort before after k v f Hk Hv).
Qed.

(** C3. Root omission: [Inject] of a context whose parent identifier is 0
    sets the keys [dd-trace-traceid] and [dd-trace-spanid] and leaves every
    other key of the carrier as it was, [dd-trace-parentid] among them (so
    an empty carrier has no such key afterwards); and [Extract] from a
    carrier none of whose keys names the parent field yields a context
    whose parent identifier is 0. *)
Theorem root_span_parent_omitted :
  (∀ (span : tracer.Span) (m : gmap string string),
     tracer.ParentID span = 0 →
     ∃ m',
       Tracer.Inject (OwnSpanContext (Span_Context span)) HTTPHeaders (TextMapCarrier m)
       = (TextMapCarrier m', None) ∧
       m' !! fieldTraceID = Some (strconv.FormatUint16 (tracer.TraceID span)) ∧
       m' !! fieldSpanID = Some (strconv.FormatUint16 (tracer.SpanID span)) ∧
       m' !! fieldParentID = m !! fieldParentID ∧
       ∀ k, k ≠ fieldTraceID → k ≠ fieldSpanID → m' !! k = m !! k) ∧
  (∀ m : gmap string string,
     (∀ k v, m !! k = Some v → ¬ names k FParentID) →
     ∃ extracted e,
       Tracer.Extract HTTPHeaders (TextMapCarrier m)
       = (Some (Span_Context extracted), e) ∧
       tracer.ParentID extracted = 0).
Proof.
  split.
  - intros span m Hp. eexists. split.
    + unfold Tracer.Inject. cbn. rewrite decide_True by done.
      rewrite Hp. cbn. reflexivity.
    + unfold TextMapCarrier_Set. split_and!.
      * by rewrite lookup_insert_eq.
      * by rewrite lookup_insert_ne, lookup_insert_eq.
      * by rewrite !lookup_insert_ne.
      * intros k Ht Hs. by rewrite !lookup_insert_ne.
  - intros m Habs. eexists _, _. split; [apply Tracer_Extract_unfold|].
    cbn [extractedSpan tracer.ParentID].
    rewrite ForeachKey_absent; [done|].
    intros k v Hin%rangeOrder_elem. by eapply Habs.
Qed.

Lemma Forall2_elem_of_r_ex {A B : Type} (R : A → B → Prop) (l : list A) (l' : list B) (y : B) :
  Forall2 R l l' → y ∈ l' → ∃ x, x ∈ l ∧ R x y.
Proof.
  induction 1 as [|x y' l l' HR _ IH]; intros Hin; [by apply elem_of_nil in Hin|].
  apply elem_of_cons in Hin as [->|Hin].
  - exists x. split; [left|done].
  - destruct (IH Hin) as (x' & Hx' & HR'). exists x'. split; [by right|done].
Qed.

Lemma differInKeyCaseOnly_covers (m1 m2 : gmap string string) :
  differInKeyCaseOnly m1 m2 →
  covers (rangeOrder m1) (rangeOrder m2) ∧ covers (rangeOrder m2) (rangeOrder m1).
Proof.
  intros (l1 & l2 & Hl1 & Hl2 & Hall). split.
  - intros k2 v Hin. rewrite range_visits_each_entry_once, <- Hl2 in Hin.
    destruct (Forall2_elem_of_r_ex _ _ _ _ Hall Hin) as ([k1 v1] & Hin1 & Hk & Hv).
    cbn in Hk, Hv. subst v1. exists k1. split; [|done].
    by rewrite range_visits_each_entry_once, <- Hl1.
  - intros k1 v Hin. rewrite range_visits_each_entry_once, <- Hl1 in Hin.
    apply Forall2_flip in Hall.
    destruct (Forall2_elem_of_r_ex _ _ _ _ Hall Hin) as ([k2 v2] & Hin2 & Hk & Hv).
    cbn in Hk, Hv. subst v2. exists k2. split; [|done].
    by rewrite range_visits_each_entry_once, <- Hl2.
Qed.

(** C6 (amended). Case insensitivity: for two carriers whose bindings
    differ in the case of the letters of their keys only, [Extract] fails
    on both or succeeds on both, in whatever order each is visited; it
    returns the same result for both when their bindings are visited in
    corresponding order; and when it succeeds on a carrier that gives no
    field two values, it returns the same context for both, with equal
    trace, span and parent identifiers, in whatever order each is visited. *)
Theorem Extract_key_case (m1 m2 : gmap string string) :
  differInKeyCaseOnly m1 m2 →
  (Tracer.Extract HTTPHeaders (TextMapCarrier m1)).2
  = (Tracer.Extract HTTPHeaders (TextMapCarrier m2)).2 ∧
  (Forall2 sameUpToKeyCase (rangeOrder m1) (rangeOrder m2) →
   Tracer.Extract HTTPHeaders (TextMapCarrier m1)
   = Tracer.Extract HTTPHeaders (TextMapCarrier m2)) ∧
  (singleValued m1 →
   (Tracer.Extract HTTPHeaders (TextMapCarrier m1)).2 = None →
   Tracer.Extract HTTPHeaders (TextMapCarrier m1)
   = Tracer.Extract HTTPHeaders (TextMapCarrier m2)).
Proof.
  intros [H12 H21]%differInKeyCaseOnly_covers.
  rewrite !Tracer_Extract_unfold. cbn [snd]. split_and!.
  - by apply ForeachKey_error_covers.
  - intros Hcase. by rewrite (ForeachKey_key_case _ _ Hcase).
  - intros Hsingle Hok.
    assert (Hvar : ∀ f,
      fieldVar f (ForeachKey (rangeOrder m1) handler textMapPropagator.vars0).1
      = fieldVar f (ForeachKey (rangeOrder m2) handler textMapPropagator.vars0).1).
    { intros f. apply ForeachKey_vars_covers; [done..|].
      intros k k' v v' Hin%rangeOrder_elem Hin'%rangeOrder_elem. by apply Hsingle. }
    rewrite !Hvar. f_equal. by apply ForeachKey_error_covers.
Qed.

(** C7. Defaults: from a readable carrier in which every value under a key
    that names a recognized field is parseable, [Extract] returns a context
    and no error; an identifier that no key names is 0, and so the context
    of a carrier without any recognized key has three zeros. *)
Theorem Extract_well_formed (m : gmap string string) :
  (∀ k v f, m !! k = Some v → names k f → parseable v) →
  ∃ spanID traceID parentID,
    Tracer.Extract HTTPHeaders (TextMapCarrier m)
    = (Some (Span_Context (extractedSpan spanID traceID parentID)), None) ∧
    ((∀ k v, m !! k = Some v → ¬ names k FSpanID) → spanID = 0) ∧
    ((∀ k v, m !! k = Some v → ¬ names k FTraceID) → traceID = 0) ∧
    ((∀ k v, m !! k = Some v → ¬ names k FParentID) → parentID = 0) ∧
    ((∀ k v f, m !! k = Some v → ¬ names k f) →
     Tracer.Extract HTTPHeaders (TextMapCarrier m)
     = (Some (Span_Context (extractedSpan 0 0 0)), None)).
Proof.
  intros Hwf.
  assert (Hwf' : wellFormed (rangeOrder m)).
  { intros k v f Hin%rangeOrder_elem. by eapply Hwf. }
  assert (Habs : ∀ f, (∀ k v, m !! k = Some v → ¬ names k f) →
    fieldVar f (ForeachKey (rangeOrder m) handler textMapPropagator.vars0).1 = 0).
  { intros f Hf. rewrite ForeachKey_absent; [by destruct f|].
    intros k v Hin%rangeOrder_elem. by eapply Hf. }
  eexists _, _, _. rewrite Tracer_Extract_unfold.
  rewrite (ForeachKey_wellFormed _ Hwf'). split_and!; [done|apply Habs..|].
  intros Hnone. by rewrite !Habs by (intros k v; apply Hnone).
Qed.

End Wire.

(** ** The checks of the tracer facade *)

Lemma producedByTracer_Span_Context (span : tracer.Span) :
  producedByTracer (OwnSpanContext (Span_Context span)).
Proof. by exists span. Qed.

(** [Inject] checks the context first: a value of another type, or a
    [*SpanContext] whose context holds no span, is refused whatever the
    format, and nothing is written. *)
Lemma Inject_not_produced (sm : SpanContextArg) (f : format) (c : carrier) :
  ¬ producedByTracer sm → Tracer.Inject sm f c = (c, Some ErrInvalidSpanContext).
Proof.
  intros Hsm. destruct sm as [[[span|]]|]; [|done..].
  destruct Hsm. by exists span.
Qed.

(** The format is checked next, before the carrier is looked at. *)
Lemma Inject_produced_other_format (sm : SpanContextArg) (f : format) (c : carrier) :
  producedByTracer sm → f ≠ HTTPHeaders →
  Tracer.Inject sm f c = (c, Some ErrUnsupportedFormat).
Proof.
  intros [span ->] Hf. unfold Tracer.Inject. cbn. by rewrite decide_False.
Qed.

(** C4, as the code has it: the claim holds for a context that this tracer
    produced; with a context of another type [Inject] returns
    [ErrInvalidSpanContext], whatever the format. *)
Lemma Inject_foreign_context_other_format :
  ¬ (∀ (sm : SpanContextArg) (f : format) (c : carrier),
       f ≠ HTTPHeaders → Tracer.Inject sm f c = (c, Some ErrUnsupportedFormat)).
Proof.
  intros Hclaim.
  specialize (Hclaim ForeignSpanContext Binary (TextMapCarrier ∅) ltac:(discriminate)).
  discriminate Hclaim.
Qed.

(** C4 (amended). Unsupported format: for every context produced by this
    tracer, every carrier and every format other than [HTTPHeaders],
    [Inject] returns [ErrUnsupportedFormat] with the carrier as it was, and
    [Extract] with such a format returns no context and
    [ErrUnsupportedFormat]. *)
Theorem unsupported_format `{Runtime} (sm : SpanContextArg) (f : format) (c : carrier) :
  producedByTracer sm → f ≠ HTTPHeaders →
  Tracer.Inject sm f c = (c, Some ErrUnsupportedFormat) ∧
  Tracer.Extract f c = (None, Some ErrUnsupportedFormat).
Proof.
  intros Hsm Hf. split.
  - by apply Inject_produced_other_format.
  - unfold Tracer.Extract. by rewrite decide_False.
Qed.

(** [InjectAny] on a pointer that is not nil is [Inject]. *)
Lemma InjectAny_NonNilValue (sm : SpanContextArg) (f : format) (c : carrier) :
  Tracer.InjectAny (NonNilValue sm) f c = Returns (Tracer.Inject sm f c).
Proof.
  destruct sm as [[[span|]]|]; cbn; [|done..]. by case_decide.
Qed.

(** C8, as the code has it. A nil [*SpanContext] is a context value that
    this tracer did not produce; [Inject] accepts it in the type assertion
    and panics when it selects [sc.ctx], where the claim has it return
    [ErrInvalidSpanContext].  For every other context value that this
    tracer did not produce, a value of another type or a [*SpanContext]
    whose context holds no span, [Inject] returns [ErrInvalidSpanContext]
    and leaves the carrier as it was, for every format and carrier. *)
Theorem Inject_nil_context_panics (f : format) (c : carrier) :
  Tracer.InjectAny NilSpanContextPointer f c = Panics ∧
  ∀ sm, ¬ producedByTracer sm →
        Tracer.InjectAny (NonNilValue sm) f c
        = Returns (c, Some ErrInvalidSpanContext).
Proof.
  split; [reflexivity|]. intros sm Hsm.
  by rewrite InjectAny_NonNilValue, Inject_not_produced.
Qed.

(** ** The span wrapper *)

Section SpanWrapper.
Context `{Runtime}.

Example SetTag_latency (s : tracer.Span) :
  tracer.Metrics (Span.SetTag "latency" (VFloat64 12.5%float) s) !! "latency"
  = Some 12.5%float.
Proof. apply lookup_insert_eq. Qed.

Example SetTag_env (s : tracer.Span) :
  tracer.Meta (Span.SetTag "env" (VString "prod") s) !! "env" = Some "prod"%string.
Proof. apply lookup_insert_eq. Qed.

Example SetTag_service (s : tracer.Span) :
  Span.SetTag "service" (VString "checkout") s = set_Service "checkout" s.
Proof. reflexivity. Qed.

(** What [SetTag] does with a value that is no [float64]. *)
Lemma SetTag_not_float (key : string) (v : value) (s : tracer.Span) :
  (∀ t, v ≠ VFloat64 t) →
  Span.SetTag key v s
  = if decide (key = ServiceTagKey) then set_Service (Sprint v) s
    else if decide (key = ResourceTagKey) then set_Resource (Sprint v) s
    else tracer.SetMeta key (Sprint v) s.
Proof. intros Hv. destruct v as [t| |]; [by destruct (Hv t)|done..]. Qed.

(** C5. Tag and metric dispatch: [SetTag] with a [float64] value records
    it under the key in the metrics and changes nothing else; with any
    other value it takes the value's string representation, and stores it
    as the service name when the key is "service", as the resource name
    when the key is "resource", and under the key in the tag map for any
    other key, changing nothing else.  The span it returns is the receiver
    after this update. *)
Theorem SetTag_dispatch (key : string) (v : value) (s : tracer.Span) :
  (∀ t, v = VFloat64 t →
     Span.SetTag key v s
     = tracer.mkSpan (tracer.Name s) (tracer.Service s) (tracer.Resource s)
         (tracer.Meta s) (<[key := t]> (tracer.Metrics s))
         (tracer.SpanID s) (tracer.TraceID s) (tracer.ParentID s)) ∧
  ((∀ t, v ≠ VFloat64 t) → key = "service"%string →
     Span.SetTag key v s
     = tracer.mkSpan (tracer.Name s) (Sprint v) (tracer.Resource s)
         (tracer.Meta s) (tracer.Metrics s)
         (tracer.SpanID s) (tracer.TraceID s) (tracer.ParentID s)) ∧
  ((∀ t, v ≠ VFloat64 t) → key = "resource"%string →
     Span.SetTag key v s
     = tracer.mkSpan (tracer.Name s) (tracer.Service s) (Sprint v)
         (tracer.Meta s) (tracer.Metrics s)
         (tracer.SpanID s) (tracer.TraceID s) (tracer.ParentID s)) ∧
  ((∀ t, v ≠ VFloat64 t) → key ≠ "service"%string → key ≠ "resource"%string →
     Span.SetTag key v s
     = tracer.mkSpan (tracer.Name s) (tracer.Service s) (tracer.Resource s)
         (<[key := Sprint v]> (tracer.Meta s)) (tracer.Metrics s)
         (tracer.SpanID s) (tracer.TraceID s) (tracer.ParentID s)).
Proof.
  split_and!.
  - by intros t ->.
  - intros Hv ->. by rewrite SetTag_not_float.
  - intros Hv ->. by rewrite SetTag_not_float.
  - intros Hv Hs Hr. rewrite SetTag_not_float by done.
    by rewrite !decide_False by done.
Qed.

(** *** [LogKV] *)

Lemma pairFields_non_string_key (i : nat) :
  ∀ (keyValues : list value) (n : nat) (v : value),
    keyValues !! (2 * i)%nat = Some v → (∀ key, v ≠ VString key) →
    ∃ e, pairFields n keyValues = inr e.
Proof.
  induction i as [|i IH]; intros keyValues n v Hlook Hv.
  - destruct keyValues as [|k rest]; [done|]. cbn in Hlook. injection Hlook as ->.
    destruct v as [t|key|printed]; [|by destruct (Hv key)|];
      destruct rest; cbn; eauto.
  - replace (2 * S i)%nat with (S (S (2 * i))) in Hlook by lia.
    destruct keyValues as [|k [|val rest]]; [done..|]. cbn in Hlook.
    destruct k as [t|key|printed]; cbn; eauto.
    destruct (IH rest (S n) v Hlook Hv) as [e ->]. eauto.
Qed.

Lemma InterleavedKVToFields_cannotBePaired (keyValues : list value) :
  cannotBePaired keyValues → ∃ e, InterleavedKVToFields keyValues = inr e.
Proof.
  unfold InterleavedKVToFields. intros [Hodd|(i & v & Hlook & Hv)].
  - destruct Hodd as [h Hh]. rewrite Hh.
    replace (2 * h + 1)%nat with (1 + h * 2)%nat by lia.
    rewrite Nat.Div0.mod_add. cbn. eauto.
  - destruct (length keyValues `mod` 2 =? 0)%nat; [|eauto].
    by eapply pairFields_non_string_key.
Qed.

Example LogKV_pairs (s : tracer.Span) :
  Span.LogKV [VString "env"; VString "prod"; VString "latency"; VFloat64 12.5%float] s
  = Span.SetTag "latency" (VFloat64 12.5%float) (Span.SetTag "env" (VString "prod") s).
Proof. reflexivity. Qed.

(** C9. [LogKV] with arguments that cannot be paired into fields (an odd
    number of them, or one in key position that is not a string) returns
    with the span as it was: tags, metrics, service name, resource name and
    operation name are unchanged. *)
Theorem LogKV_cannot_be_paired (alternatingKeyValues : list value) (s : tracer.Span) :
  cannotBePaired alternatingKeyValues →
  Span.LogKV alternatingKeyValues s = s.
Proof.
  intros Hbad. unfold Span.LogKV.
  by destruct (InterleavedKVToFields_cannotBePaired _ Hbad) as [e ->].
Qed.

End SpanWrapper.

(** C10. [Span.Tracer] never returns: its body is a call of itself, so
    no bound on the number of nested calls is enough for the call to give
    a result. *)
Theorem Span_Tracer_never_returns (depth : nat) (s : tracer.Span) :
  Span.Tracer depth s = None.
Proof. induction depth as [|depth IH]; [reflexivity|exact IH]. Qed.


(** * The properties at concrete inputs *)

Lemma sampleRuntime_range (m : gmap string string) :
  @rangeOrder sampleRuntime m ≡ₚ map_to_list m.
Proof. reflexivity. Defined.

Lemma inject_extract_round_trip_witness :
  ∃ c extracted,
    Tracer.Inject (OwnSpanContext (Span_Context sampleSpan)) HTTPHeaders (TextMapCarrier ∅)
    = (c, None) ∧
    @Tracer.Extract sampleRuntime HTTPHeaders c = (Some (Span_Context extracted), None) ∧
    tracer.TraceID extracted = 171 ∧
    tracer.SpanID extracted = 205 ∧
    tracer.ParentID extracted = 18.
Proof.
  apply (inject_extract_round_trip (H := sampleRuntime) sampleRuntime_range sampleSpan);
    cbn; lia.
Defined.

Lemma Extract_corrupted_witness :
  (@Tracer.Extract sampleRuntime HTTPHeaders
     (TextMapCarrier {["DD-Trace-TraceID" := "not-hex"]})).2
  = Some ErrSpanContextCorrupted.
Proof.
  refine (proj1 (Extract_corrupted (H := sampleRuntime) sampleRuntime_range
                   {["DD-Trace-TraceID" := "not-hex"]} "DD-Trace-TraceID" "not-hex"
                   FTraceID _ _ _)).
  - apply lookup_singleton_eq.
  - reflexivity.
  - unfold parseable. vm_compute. discriminate.
Defined.

Lemma root_span_parent_omitted_witness :
  (∃ m',
     Tracer.Inject (OwnSpanContext (Span_Context sampleRoot)) HTTPHeaders (TextMapCarrier ∅)
     = (TextMapCarrier m', None) ∧
     m' !! fieldTraceID = Some "ab"%string ∧
     m' !! fieldSpanID = Some "cd"%string ∧
     m' !! fieldParentID = None) ∧
  (∃ extracted e,
     @Tracer.Extract sampleRuntime HTTPHeaders
       (TextMapCarrier {["Dd-Trace-Traceid" := "ab"]})
     = (Some (Span_Context extracted), e) ∧
     tracer.ParentID extracted = 0).
Proof.
  destruct (root_span_parent_omitted (H := sampleRuntime) sampleRuntime_range)
    as [Hinject Hextract].
  split.
  - destruct (Hinject sampleRoot ∅ eq_refl) as (m' & Hm' & Ht & Hs & Hp & _).
    exists m'. split_and!; [exact Hm'|exact Ht|exact Hs|].
    rewrite Hp. apply lookup_empty.
  - apply Hextract. intros k v [<- <-]%lookup_singleton_Some. discriminate.
Defined.

Lemma unsupported_format_witness :
  Tracer.Inject (OwnSpanContext (Span_Context sampleSpan)) Binary (TextMapCarrier ∅)
  = (TextMapCarrier ∅, Some ErrUnsupportedFormat) ∧
  @Tracer.Extract sampleRuntime Binary (TextMapCarrier ∅)
  = (None, Some ErrUnsupportedFormat).
Proof.
  apply (unsupported_format (H := sampleRuntime)
           (OwnSpanContext (Span_Context sampleSpan)) Binary (TextMapCarrier ∅)).
  - by exists sampleSpan.
  - discriminate.
Defined.

Lemma SetTag_dispatch_witness :
  @Span.SetTag sampleRuntime "latency" (VFloat64 12.5%float) sampleRoot
  = tracer.mkSpan "GET /cart" "checkout" "/" ∅ {["latency" := 12.5%float]} 205 171 0 ∧
  @Span.SetTag sampleRuntime "service" (VString "billing") sampleRoot
  = tracer.mkSpan "GET /cart" "billing" "/" ∅ ∅ 205 171 0 ∧
  @Span.SetTag sampleRuntime "resource" (VOther "42") sampleRoot
  = tracer.mkSpan "GET /cart" "checkout" "42" ∅ ∅ 205 171 0 ∧
  @Span.SetTag sampleRuntime "env" (VString "prod") sampleRoot
  = tracer.mkSpan "GET /cart" "checkout" "/" {["env" := "prod"%string]} ∅ 205 171 0.
Proof.
  split_and!.
  - apply (proj1 (SetTag_dispatch (H := sampleRuntime) "latency"
                    (VFloat64 12.5%float) sampleRoot)).
    reflexivity.
  - apply (proj1 (proj2 (SetTag_dispatch (H := sampleRuntime) "service"
                           (VString "billing") sampleRoot))); [discriminate|reflexivity].
  - apply (proj1 (proj2 (proj2 (SetTag_dispatch (H := sampleRuntime) "resource"
                                  (VOther "42") sampleRoot)))); [discriminate|reflexivity].
  - apply (proj2 (proj2 (proj2 (SetTag_dispatch (H := sampleRuntime) "env"
                                  (VString "prod") sampleRoot)))); discriminate.
Defined.

Lemma LogKV_cannot_be_paired_witness :
  @Span.LogKV sampleRuntime [VString "env"; VString "prod"; VString "service"] sampleRoot
  = sampleRoot ∧
  @Span.LogKV sampleRuntime [VString "env"; VString "prod"; VOther "7"; VString "x"] sampleRoot
  = sampleRoot.
Proof.
  split; apply LogKV_cannot_be_paired.
  - left. exists 1%nat. reflexivity.
  - right. exists 1%nat, (VOther "7"). split; [reflexivity|discriminate].
Defined.

Lemma Extract_well_formed_witness :
  ∃ spanID traceID parentID,
    @Tracer.Extract sampleRuntime HTTPHeaders
      (TextMapCarrier {["Dd-Trace-Spanid" := "cd"]})
    = (Some (Span_Context (extractedSpan spanID traceID parentID)), None) ∧
    traceID = 0 ∧ parentID = 0.
Proof.
  destruct (Extract_well_formed (H := sampleRuntime) sampleRuntime_range
              {["Dd-Trace-Spanid" := "cd"]})
    as (s & t & p & Hres & _ & Ht & Hp & _).
  - intros k v f [<- <-]%lookup_singleton_Some _.
    unfold parseable. vm_compute. reflexivity.
  - exists s, t, p. split_and!; [exact Hres|apply Ht|apply Hp];
      intros k v [<- <-]%lookup_singleton_Some; discriminate.
Defined.

Lemma capitalKeys_smallKeys :
  Forall2 (@sameUpToKeyCase sampleRuntime) (map_to_list capitalKeys) (map_to_list smallKeys).
Proof. vm_compute. repeat constructor. Defined.

Lemma Extract_key_case_witness :
  @Tracer.Extract sampleRuntime HTTPHeaders (TextMapCarrier capitalKeys)
  = @Tracer.Extract sampleRuntime HTTPHeaders (TextMapCarrier smallKeys).
Proof.
  refine (proj1 (proj2 (Extract_key_case (H := sampleRuntime) sampleRuntime_range
                          capitalKeys smallKeys _)) _).
  - exists (map_to_list capitalKeys), (map_to_list smallKeys).
    split_and!; [reflexivity..|exact capitalKeys_smallKeys].
  - exact capitalKeys_smallKeys.
Defined.

(** C6, as the code has it: a carrier may bind two keys that name the same
    field, and then the identifier extracted is the one visited last.  The
    two carriers below differ in the capitals of one key only, and both
    extractions succeed, with span identifiers 2 and 1. *)
Lemma Extract_key_case_two_span_keys :
  (∀ m, @rangeOrder reversingRuntime m ≡ₚ map_to_list m) ∧
  @differInKeyCaseOnly reversingRuntime twoSpanKeys1 twoSpanKeys2 ∧
  @Tracer.Extract reversingRuntime HTTPHeaders (TextMapCarrier twoSpanKeys1)
  = (Some (Span_Context (extractedSpan 2 0 0)), None) ∧
  @Tracer.Extract reversingRuntime HTTPHeaders (TextMapCarrier twoSpanKeys2)
  = (Some (Span_Context (extractedSpan 1 0 0)), None).
Proof.
  split_and!.
  - intros m. cbn. case_decide; [apply reverse_Permutation|reflexivity].
  - exists (map_to_list twoSpanKeys1), (map_to_list twoSpanKeys2).
    split_and!; [reflexivity..|]. vm_compute. repeat constructor.
  - vm_compute. reflexivity.
  - vm_compute. reflexivity.
Qed.


(** * Further properties of the propagator *)

(** ** What [ParseUint] accepts *)

Lemma parseLoop_bound (s : string) :
  ∀ n, n < 2 ^ 64 → (strconv.parseLoop s n).1 < 2 ^ 64.
Proof.
  induction s as [|c s IH]; intros n Hn; cbn [strconv.parseLoop]; [done|].
  assert (Hmax : strconv.maxVal = 2 ^ 64 - 1) by (vm_compute; reflexivity).
  destruct (strconv.digitVal c) as [d|]; [|cbn; lia].
  destruct (16 <=? d); [cbn; lia|].
  destruct (strconv.cutoff <=? n); [cbn; rewrite Hmax; lia|].
  cbv zeta.
  destruct (_ || _); [cbn; rewrite Hmax; lia|].
  apply IH. apply N.mod_upper_bound. lia.
Qed.

Lemma ParseUint16_bound (s : string) : (strconv.ParseUint16 s).1 < 2 ^ 64.
Proof.
  destruct s as [|c s]; [cbn; lia|].
  change (strconv.ParseUint16 (String c s)) with (strconv.parseLoop (String c s) 0).
  apply parseLoop_bound. lia.
Qed.

(** The digits of [ParseUint] in base 16 are the hexadecimal digits of
    either case. *)
Lemma digitVal_hexDigit (c : ascii) :
  hexDigit c
  = match strconv.digitVal c with
    | Some d => if 16 <=? d then None else Some d
    | None => None
    end.
Proof. destruct c as [[] [] [] [] [] [] [] []]; vm_compute; reflexivity. Qed.

Lemma hexAcc_ge (s : string) : ∀ n v, hexAcc s n = Some v → n <= v.
Proof.
  induction s as [|c s IH]; intros n v; cbn [hexAcc].
  - intros [= ->]. lia.
  - destruct (hexDigit c) as [d|]; [|done]. intros Hv%IH. lia.
Qed.

(** The loop of [ParseUint] on a string and the number read so far: the
    number the digits denote when it fits 64 bits, the range error when
    it does not, and an error when a character is no digit. *)
Lemma parseLoop_hexAcc (s : string) :
  ∀ n, n < 2 ^ 64 →
    match hexAcc s n with
    | Some v =>
        strconv.parseLoop s n
        = if v <? 2 ^ 64 then (v, None)
          else (strconv.maxUint64, Some strconv.ErrRange)
    | None => (strconv.parseLoop s n).2 ≠ None
    end.
Proof.
  assert (Hcut : strconv.cutoff = 2 ^ 60) by (vm_compute; reflexivity).
  assert (Hmax : strconv.maxVal = strconv.maxUint64) by (vm_compute; reflexivity).
  assert (Hmax64 : strconv.maxUint64 = 2 ^ 64 - 1) by reflexivity.
  induction s as [|c s IH]; intros n Hn; cbn [hexAcc strconv.parseLoop].
  - by destruct (N.ltb_spec n (2 ^ 64)); [|lia].
  - rewrite digitVal_hexDigit.
    destruct (strconv.digitVal c) as [d|]; [|done].
    destruct (N.leb_spec 16 d) as [|Hd]; [done|].
    rewrite Hcut. destruct (N.leb_spec (2 ^ 60) n) as [Hbig|Hsmall].
    + destruct (hexAcc s (16 * n + d)) as [v|] eqn:Ev; [|by rewrite Hmax].
      apply hexAcc_ge in Ev.
      destruct (N.ltb_spec v (2 ^ 64)); [lia|]. by rewrite Hmax.
    + cbv zeta. rewrite (N.mod_small (n * 16)) by lia.
      rewrite (N.mod_small (n * 16 + d)) by lia.
      destruct (N.ltb_spec (n * 16 + d) (n * 16)); [lia|].
      rewrite Hmax, Hmax64.
      destruct (N.ltb_spec (2 ^ 64 - 1) (n * 16 + d)); [lia|]. cbn [orb].
      replace (16 * n + d) with (n * 16 + d) by lia. apply IH. lia.
Qed.

Lemma ParseUint16_hexValue (s : string) :
  match hexValue s with
  | Some v =>
      strconv.ParseUint16 s
      = if v <? 2 ^ 64 then (v, None)
        else (strconv.maxUint64, Some strconv.ErrRange)
  | None => (strconv.ParseUint16 s).2 ≠ None
  end.
Proof.
  destruct s as [|c s]; [done|].
  change (hexValue (String c s)) with (hexAcc (String c s) 0).
  change (strconv.ParseUint16 (String c s)) with (strconv.parseLoop (String c s) 0).
  apply parseLoop_hexAcc. lia.
Qed.

Lemma ParseUint16_of_hexValue (v : string) (n : N) :
  hexValue v = Some n → n < 2 ^ 64 → strconv.ParseUint16 v = (n, None).
Proof.
  intros Hn Hlt. pose proof (ParseUint16_hexValue v) as Hspec.
  rewrite Hn in Hspec. by destruct (N.ltb_spec n (2 ^ 64)); [|lia].
Qed.

(** X1. [ParseUint] accepts exactly the base-16 numerals, of either case
    and with any number of leading zeros, that denote a 64-bit number, and
    returns that number. *)
Theorem parseable_iff_hexValue (v : string) :
  (parseable v ↔ ∃ n, hexValue v = Some n ∧ n < 2 ^ 64) ∧
  (∀ n, hexValue v = Some n → n < 2 ^ 64 → strconv.ParseUint16 v = (n, None)).
Proof.
  pose proof (ParseUint16_hexValue v) as Hspec. unfold parseable. split.
  - split.
    + intros Hok. destruct (hexValue v) as [n|]; [|done].
      exists n. split; [done|].
      destruct (N.ltb_spec n (2 ^ 64)); [done|]. by rewrite Hspec in Hok.
    + intros (n & Hn & Hlt). rewrite Hn in Hspec.
      destruct (N.ltb_spec n (2 ^ 64)); [|lia]. by rewrite Hspec.
  - intros n Hn Hlt. rewrite Hn in Hspec.
    by destruct (N.ltb_spec n (2 ^ 64)); [|lia].
Qed.

(** ** What [Inject] and [Extract] return *)

(** X2. [Inject] succeeds exactly when the context was produced by this
    tracer, the format is [HTTPHeaders] and the carrier is a text map; in
    every other case it leaves the carrier as it was, and a carrier that
    is no text map is reported last, as [ErrInvalidCarrier]. *)
Theorem Inject_outcomes (sm : SpanContextArg) (f : format) (c : carrier) :
  ((Tracer.Inject sm f c).2 = None ↔
   producedByTracer sm ∧ f = HTTPHeaders ∧ ∃ m, c = TextMapCarrier m) ∧
  ((Tracer.Inject sm f c).2 ≠ None → (Tracer.Inject sm f c).1 = c) ∧
  ((Tracer.Inject sm f c).2 = Some ErrInvalidCarrier ↔
   producedByTracer sm ∧ f = HTTPHeaders ∧ c = OtherCarrier).
Proof.
  assert (Hcases : producedByTracer sm ∨ ¬ producedByTracer sm).
  { destruct sm as [[[span|]]|]; [left; by exists span|right..];
      intros [span [=]]. }
  destruct Hcases as [[span ->]|Hsm].
  - unfold Tracer.Inject. cbn [ctx Span_Context tracer.Span_Context tracer.SpanFromContext].
    destruct (decide (f = HTTPHeaders)) as [->|Hf].
    + destruct c as [m|]; cbn; split_and!; try done.
      * split; [intros _|done]. split_and!; [by exists span|done|by exists m].
      * split; [done|]. by intros (_ & _ & [=]).
      * split; [discriminate|]. by intros (_ & _ & [m [=]]).
      * split; [intros _|done]. split_and!; [by exists span|done..].
    + cbn. split_and!; [|done|]; split; try discriminate; by intros (_ & ? & _).
  - rewrite (Inject_not_produced sm f c Hsm). cbn. split_and!; [|done|];
      split; try discriminate; by intros (? & _).
Qed.

Section Outcomes.
Context `{Runtime}.

#[local] Abbreviation handler := textMapPropagator.handler.

Lemma ForeachKey_error (entries : list (string * string)) :
  ∀ x e, (ForeachKey entries handler x).2 = Some e → e = ErrSpanContextCorrupted.
Proof.
  induction entries as [|[k v] rest IH]; intros x e; [done|].
  cbn [ForeachKey]. destruct (handler k v x) as [x' [e'|]] eqn:E.
  - cbn. intros [= <-]. apply (handler_error k v x). by rewrite E.
  - apply IH.
Qed.

Lemma handler_bound (k v : string) (x : textMapPropagator.vars) :
  (∀ f, fieldVar f x < 2 ^ 64) → ∀ f, fieldVar f (handler k v x).1 < 2 ^ 64.
Proof.
  intros Hx f. destruct (decide (names k f)) as [Hf|Hf].
  - destruct (handler_names k v x f Hf) as (-> & _). apply ParseUint16_bound.
  - by rewrite handler_other.
Qed.

Lemma ForeachKey_bound (entries : list (string * string)) :
  ∀ x, (∀ f, fieldVar f x < 2 ^ 64) →
       ∀ f, fieldVar f (ForeachKey entries handler x).1 < 2 ^ 64.
Proof.
  induction entries as [|[k v] rest IH]; intros x Hx f; [apply Hx|].
  cbn [ForeachKey]. pose proof (handler_bound k v x Hx) as Hx'.
  destruct (handler k v x) as [x' [e'|]]; [apply Hx'|]. by apply IH.
Qed.

Lemma Extract_context_in_range (f : format) (c : carrier) (sc : SpanContext)
    (e : option error) :
  Tracer.Extract f c = (Some sc, e) →
  ∃ span, sc = Span_Context span ∧ uint64IDs span.
Proof.
  unfold Tracer.Extract. case_decide; [|done].
  destruct c as [m|]; [|done]. cbn [textMapPropagator.Extract].
  rewrite extractEntries_unfold. intros [= <- _].
  eexists. split; [done|].
  pose proof (ForeachKey_bound (rangeOrder m) textMapPropagator.vars0) as Hb.
  intros g. specialize (Hb ltac:(intros []; cbn; lia) g). by destruct g.
Qed.

(** X3. The identifiers of every context that [Extract] returns are
    64-bit values, whatever the carrier holds and whether or not an error
    is returned with the context. *)
Theorem Extract_ids_in_range (f : format) (c : carrier) (sc : SpanContext) (e : option error) :
  Tracer.Extract f c = (Some sc, e) →
  ∃ span, sc = Span_Context span ∧ uint64IDs span.
Proof. apply Extract_context_in_range. Qed.

(** X4. [Extract] returns no context exactly with [ErrUnsupportedFormat]
    (the format is not [HTTPHeaders]) and with [ErrInvalidCarrier] (the
    carrier is no text map); with [ErrSpanContextCorrupted] it returns a
    context next to the error; and the error of [strconv] that the closure
    stores in [err] is never returned. *)
Theorem Extract_outcomes (f : format) (c : carrier) :
  ((Tracer.Extract f c).2 = Some ErrUnsupportedFormat ↔ f ≠ HTTPHeaders) ∧
  ((Tracer.Extract f c).2 = Some ErrInvalidCarrier ↔
   f = HTTPHeaders ∧ c = OtherCarrier) ∧
  ((Tracer.Extract f c).1 = None ↔
   (Tracer.Extract f c).2 = Some ErrUnsupportedFormat ∨
   (Tracer.Extract f c).2 = Some ErrInvalidCarrier) ∧
  ((Tracer.Extract f c).2 = Some ErrSpanContextCorrupted →
   (Tracer.Extract f c).1 ≠ None) ∧
  (∀ ne, (Tracer.Extract f c).2 ≠ Some (NumError ne)).
Proof.
  unfold Tracer.Extract. destruct (decide (f = HTTPHeaders)) as [->|Hf].
  - destruct c as [m|]; cbn [textMapPropagator.Extract].
    + rewrite extractEntries_unfold. cbn [fst snd].
      assert (Herr : ∀ e, (ForeachKey (rangeOrder m) handler textMapPropagator.vars0).2
                          = Some e → e = ErrSpanContextCorrupted)
        by (intros e; apply ForeachKey_error).
      split_and!; [split; [by intros ?%Herr|done]
                  |split; [by intros ?%Herr|by intros [_ [=]]]
                  |split; [done|by intros [?%Herr|?%Herr]]
                  |done
                  |by intros ne ?%Herr].
    + cbn. intuition congruence.
  - cbn. intuition congruence.
Qed.

End Outcomes.

(** ** The carrier after [Inject] *)

Lemma Tracer_Inject_written (span : tracer.Span) (m : gmap string string) :
  Tracer.Inject (OwnSpanContext (Span_Context span)) HTTPHeaders (TextMapCarrier m)
  = (TextMapCarrier (written span m), None).
Proof.
  unfold Tracer.Inject. cbn. rewrite decide_True by done.
  unfold written, TextMapCarrier_Set. by destruct (0 <? tracer.ParentID span).
Qed.

Lemma written_lookup (span : tracer.Span) (m : gmap string string) (k v : string) :
  written span m !! k = Some v ↔
  (∃ f, k = fieldKey f ∧ v = strconv.FormatUint16 (fieldOfSpan f span) ∧
        isWritten f span) ∨
  ((∀ f, isWritten f span → k ≠ fieldKey f) ∧ m !! k = Some v).
Proof.
  unfold written, isWritten.
  destruct (N.ltb_spec 0 (tracer.ParentID span)) as [Hp|Hp];
    rewrite !lookup_insert_Some; split.
  - intros [[<- <-]|[Hkp [[<- <-]|[Hkt [[<- <-]|[Hks Hm]]]]]];
      [left; by exists FParentID|left; by exists FTraceID|left; by exists FSpanID|].
    right. split; [|done]. intros [] _; cbn [fieldKey]; congruence.
  - intros [([] & -> & -> & _)|[Hk Hm]]; cbn [fieldKey fieldOfSpan].
    + right. split; [done|]. right. split; [done|]. by left.
    + right. split; [done|]. by left.
    + by left.
    + pose proof (Hk FSpanID ltac:(done)). pose proof (Hk FTraceID ltac:(done)).
      pose proof (Hk FParentID ltac:(done)). cbn [fieldKey] in *.
      right. split; [done|]. right. split; [done|]. right. by split.
  - intros [[<- <-]|[Hkt [[<- <-]|[Hks Hm]]]];
      [left; exists FTraceID|left; exists FSpanID|];
      [split_and!; [done..|discriminate]..|].
    right. split; [|done]. intros [] Hw; cbn [fieldKey]; try congruence.
    specialize (Hw eq_refl). lia.
  - intros [([] & -> & -> & Hw)|[Hk Hm]]; cbn [fieldKey fieldOfSpan].
    + right. split; [done|]. by left.
    + by left.
    + specialize (Hw eq_refl). lia.
    + pose proof (Hk FSpanID ltac:(done)). pose proof (Hk FTraceID ltac:(done)).
      cbn [fieldKey] in *. right. split; [done|]. right. by split.
Qed.

Lemma isWritten_dec (f : field) (span : tracer.Span) :
  isWritten f span ∨ (f = FParentID ∧ tracer.ParentID span = 0).
Proof.
  unfold isWritten. destruct (decide (f = FParentID)) as [->|]; [|by left].
  destruct (decide (tracer.ParentID span = 0)); [by right|left; lia].
Qed.

Section Carriers.
Context `{Runtime}.

Hypothesis range_visits_each_entry_once :
  ∀ m : gmap string string, rangeOrder m ≡ₚ map_to_list m.

#[local] Abbreviation handler := textMapPropagator.handler.

(** Extraction from the carrier that [Inject] wrote over a text map none
    of whose keys names a field. *)
Lemma Extract_written (span : tracer.Span) (m : gmap string string) :
  uint64IDs span →
  (∀ k v f, m !! k = Some v → ¬ names k f) →
  Tracer.Extract HTTPHeaders (TextMapCarrier (written span m))
  = (Some (Span_Context
             (extractedSpan (tracer.SpanID span) (tracer.TraceID span)
                (tracer.ParentID span))),
     None).
Proof.
  intros Hids Hm.
  assert (Helem : ∀ k v f, (k, v) ∈ rangeOrder (written span m) → names k f →
    k = fieldKey f ∧ v = strconv.FormatUint16 (fieldOfSpan f span) ∧ isWritten f span).
  { intros k v f Hin Hk.
    apply (rangeOrder_elem range_visits_each_entry_once) in Hin.
    apply written_lookup in Hin as [(g & -> & -> & Hg)|[_ Hin]];
      [|by destruct (Hm k v f Hin)].
    unfold names in Hk. rewrite ToLower_fieldKey in Hk.
    by apply fieldKey_inj in Hk as ->. }
  assert (Hwf : wellFormed (rangeOrder (written span m))).
  { intros k v f Hin Hk. destruct (Helem k v f Hin Hk) as (_ & -> & _).
    unfold parseable. by rewrite ParseUint16_FormatUint16. }
  assert (Hvar : ∀ f,
    fieldVar f (ForeachKey (rangeOrder (written span m)) handler
                  textMapPropagator.vars0).1 = fieldOfSpan f span).
  { intros f. destruct (isWritten_dec f span) as [Hw|[-> Hp]].
    - rewrite (ForeachKey_present _ (fieldKey f)
                 (strconv.FormatUint16 (fieldOfSpan f span)) f).
      + by rewrite ParseUint16_FormatUint16.
      + done.
      + apply (rangeOrder_elem range_visits_each_entry_once), written_lookup.
        left. by exists f.
      + apply ToLower_fieldKey.
      + intros k v Hin Hk. by destruct (Helem k v f Hin Hk) as (_ & -> & _).
    - rewrite ForeachKey_absent; [cbn; by rewrite Hp|].
      intros k v Hin Hk. destruct (Helem k v _ Hin Hk) as (_ & _ & Hw).
      specialize (Hw eq_refl). lia. }
  rewrite Tracer_Extract_unfold, !Hvar.
  by rewrite ForeachKey_wellFormed.
Qed.

(** X5. Round trip next to other keys: for every span with 64-bit
    identifiers, the parent 0 or not, and every text map none of whose
    keys names a recognized field, [Inject] followed by [Extract] gives
    the three identifiers back, and [Inject] leaves the bindings the map
    had. *)
Theorem round_trip_beside_other_keys (span : tracer.Span) (m : gmap string string) :
  uint64IDs span →
  (∀ k v f, m !! k = Some v → ¬ names k f) →
  ∃ m',
    Tracer.Inject (OwnSpanContext (Span_Context span)) HTTPHeaders (TextMapCarrier m)
    = (TextMapCarrier m', None) ∧
    m ⊆ m' ∧
    Tracer.Extract HTTPHeaders (TextMapCarrier m')
    = (Some (Span_Context
               (extractedSpan (tracer.SpanID span) (tracer.TraceID span)
                  (tracer.ParentID span))),
       None).
Proof.
  intros Hids Hm. exists (written span m).
  split_and!; [apply Tracer_Inject_written| |by apply Extract_written].
  apply map_subseteq_spec. intros k v Hkv. apply written_lookup. right.
  split; [|done]. intros f _ ->.
  apply (Hm (fieldKey f) v f Hkv), ToLower_fieldKey.
Qed.

(** X6. [Extract] fails with [ErrSpanContextCorrupted] exactly when some
    key of the text map names a recognized field and has a value that is
    not parseable; otherwise it returns no error. *)
Theorem Extract_corrupted_iff (m : gmap string string) :
  ((Tracer.Extract HTTPHeaders (TextMapCarrier m)).2 = Some ErrSpanContextCorrupted ↔
   ∃ k v f, m !! k = Some v ∧ names k f ∧ ¬ parseable v) ∧
  ((Tracer.Extract HTTPHeaders (TextMapCarrier m)).2 = None ↔
   ∀ k v f, m !! k = Some v → names k f → parseable v).
Proof.
  rewrite Tracer_Extract_unfold. cbn [snd].
  split; split.
  - intros (k & v & f & Hin & Hk & Hv)%ForeachKey_fails.
    exists k, v, f. by rewrite <- (rangeOrder_elem range_visits_each_entry_once).
  - intros (k & v & f & Hin & Hk & Hv).
    apply (ForeachKey_corrupted _ k v f); [|done..].
    by apply (rangeOrder_elem range_visits_each_entry_once).
  - intros Hok%ForeachKey_ok_wellFormed k v f Hin.
    apply Hok. by apply (rangeOrder_elem range_visits_each_entry_once).
  - intros Hwf. apply ForeachKey_wellFormed. intros k v f Hin.
    apply Hwf. by apply (rangeOrder_elem range_visits_each_entry_once).
Qed.

(** X7. Decoding: when the text map is well-formed and gives a field one
    value, a base-16 numeral, of either case and with any number of
    leading zeros, that denotes a 64-bit number, [Extract] returns that
    number as the field's identifier. *)
Theorem Extract_decodes (m : gmap string string) (k v : string) (f : field) (n : N) :
  (∀ k' v' g, m !! k' = Some v' → names k' g → parseable v') →
  m !! k = Some v → names k f →
  (∀ k' v', m !! k' = Some v' → names k' f → v' = v) →
  hexValue v = Some n → n < 2 ^ 64 →
  ∃ span,
    Tracer.Extract HTTPHeaders (TextMapCarrier m) = (Some (Span_Context span), None) ∧
    fieldOfSpan f span = n.
Proof.
  intros Hwf Hkv Hk Hone Hhex Hn.
  assert (Hwf' : wellFormed (rangeOrder m)).
  { intros k' v' g Hin. apply Hwf.
    by apply (rangeOrder_elem range_visits_each_entry_once). }
  eexists. rewrite Tracer_Extract_unfold.
  rewrite (ForeachKey_wellFormed _ Hwf'). split; [done|].
  transitivity (fieldVar f (ForeachKey (rangeOrder m) handler textMapPropagator.vars0).1);
    [by destruct f|].
  rewrite (ForeachKey_present _ k v f); [| |by apply (rangeOrder_elem range_visits_each_entry_once)| |].
  - by rewrite (ParseUint16_of_hexValue v n Hhex Hn).
  - done.
  - done.
  - intros k' v' Hin. apply Hone.
    by apply (rangeOrder_elem range_visits_each_entry_once).
Qed.

End Carriers.

(** ** A carrier used more than once *)

Lemma written_written (s1 s2 : tracer.Span) (m : gmap string string) :
  tracer.ParentID s1 = 0 ∨ 0 < tracer.ParentID s2 →
  written s2 (written s1 m) = written s2 m.
Proof.
  intros Hp. unfold written.
  destruct (N.ltb_spec 0 (tracer.ParentID s1)), (N.ltb_spec 0 (tracer.ParentID s2));
    try lia; apply map_eq; intros k;
    repeat (rewrite lookup_insert; case_decide); done.
Qed.

Lemma written_root_after_child (s1 s2 : tracer.Span) (m : gmap string string) :
  0 < tracer.ParentID s1 → tracer.ParentID s2 = 0 →
  written s2 (written s1 m)
  = written (extractedSpan (tracer.SpanID s2) (tracer.TraceID s2) (tracer.ParentID s1)) m.
Proof.
  intros Hp1 Hp2. unfold written. cbn [extractedSpan tracer.SpanID tracer.TraceID tracer.ParentID].
  rewrite Hp2. destruct (N.ltb_spec 0 (tracer.ParentID s1)); [|lia].
  change (0 <? 0) with false. cbv iota.
  apply map_eq; intros k; repeat (rewrite lookup_insert; case_decide); try done;
    subst; discriminate.
Qed.

(** X8. Writing twice into a text map: for an [opentracing.TextMapCarrier],
    a Go map whose [Set] replaces the value of a key, [Inject] of a second
    context into the map that a first [Inject] wrote gives the map that
    the second alone gives, provided the first context has no parent or
    the second has one. *)
Theorem Inject_twice (s1 s2 : tracer.Span) (m : gmap string string) :
  tracer.ParentID s1 = 0 ∨ 0 < tracer.ParentID s2 →
  Tracer.Inject (OwnSpanContext (Span_Context s2)) HTTPHeaders
    (Tracer.Inject (OwnSpanContext (Span_Context s1)) HTTPHeaders
       (TextMapCarrier m)).1
  = Tracer.Inject (OwnSpanContext (Span_Context s2)) HTTPHeaders (TextMapCarrier m).
Proof.
  intros Hp. rewrite !Tracer_Inject_written. cbn [fst].
  by rewrite Tracer_Inject_written, written_written.
Qed.

Section Reuse.
Context `{Runtime}.

Hypothesis range_visits_each_entry_once :
  ∀ m : gmap string string, rangeOrder m ≡ₚ map_to_list m.

(** X9. A parent left behind: [Inject] writes no parent key for a root
    span and removes none, so for a text map none of whose keys names a
    recognized field, after [Inject] of a span with a parent and then of a
    root span into that map, [Extract] returns the span and trace
    identifiers of the root with the parent identifier of the first
    span. *)
Theorem Inject_root_keeps_parent_key (s1 s2 : tracer.Span) (m : gmap string string) :
  uint64IDs s1 → uint64IDs s2 →
  0 < tracer.ParentID s1 → tracer.ParentID s2 = 0 →
  (∀ k v f, m !! k = Some v → ¬ names k f) →
  Tracer.Extract HTTPHeaders
    (Tracer.Inject (OwnSpanContext (Span_Context s2)) HTTPHeaders
       (Tracer.Inject (OwnSpanContext (Span_Context s1)) HTTPHeaders
          (TextMapCarrier m)).1).1
  = (Some (Span_Context
             (extractedSpan (tracer.SpanID s2) (tracer.TraceID s2)
                (tracer.ParentID s1))),
     None).
Proof.
  intros Hids1 Hids2 Hp1 Hp2 Hm.
  rewrite !Tracer_Inject_written. cbn [fst]. rewrite Tracer_Inject_written. cbn [fst].
  rewrite written_root_after_child by done.
  rewrite (Extract_written range_visits_each_entry_once); [done| |done].
  intros []; cbn; [apply (Hids2 FSpanID)|apply (Hids2 FTraceID)|apply (Hids1 FParentID)].
Qed.

(** X10. Extraction, injection, extraction: every context that [Extract]
    returns, with or without an error, is accepted by [Inject], and
    [Extract] from the carrier that [Inject] writes for it returns the
    same context and no error. *)
Theorem Extract_Inject_Extract (f : format) (c : carrier) (sc : SpanContext)
    (e : option error) :
  Tracer.Extract f c = (Some sc, e) →
  ∃ c',
    Tracer.Inject (OwnSpanContext sc) HTTPHeaders (TextMapCarrier ∅) = (c', None) ∧
    Tracer.Extract HTTPHeaders c' = (Some sc, None).
Proof.
  intros Hex. destruct (Extract_context_in_range f c sc e Hex) as (span & -> & Hids).
  exists (TextMapCarrier (written span ∅)). split; [apply Tracer_Inject_written|].
  rewrite (Extract_written range_visits_each_entry_once); [|done|intros k v g Hl; by rewrite lookup_empty in Hl].
  unfold Tracer.Extract in Hex. case_decide; [|done].
  destruct c as [m|]; [|done]. cbn [textMapPropagator.Extract] in Hex.
  rewrite extractEntries_unfold in Hex. by injection Hex as <- _.
Qed.

End Reuse.

(** ** The values [Inject] writes *)

Lemma digit_lower_hex (d : N) :
  d < 16 →
  isLowerHex (strconv.digit d) = true ∧ (d ≠ 0 → strconv.digit d ≠ "0"%char).
Proof.
  intros Hd. rewrite <- (N2Nat.id d).
  assert (Hn : (N.to_nat d < 16)%nat) by lia.
  revert Hn. generalize (N.to_nat d). clear d Hd. intros n Hn.
  do 16 (destruct n as [|n]; [split; [reflexivity|try done; discriminate]|]). lia.
Qed.

Lemma allLowerHex_app (p q : string) :
  allLowerHex (p +:+ q) = allLowerHex p && allLowerHex q.
Proof.
  induction p as [|c p IH]; [done|].
  change (String c p +:+ q) with (String c (p +:+ q)).
  cbn [allLowerHex]. by rewrite IH, andb_assoc.
Qed.

Lemma string_length_app (p q : string) :
  String.length (p +:+ q) = (String.length p + String.length q)%nat.
Proof.
  induction p as [|c p IH]; [done|].
  change (String c p +:+ q) with (String c (p +:+ q)).
  cbn [String.length]. by rewrite IH.
Qed.

Lemma string_app_snoc (p : string) (c : ascii) (q : string) :
  (p +:+ String c EmptyString) +:+ q = p +:+ String c q.
Proof.
  induction p as [|c' p IH]; [done|].
  change ((String c' p +:+ String c EmptyString) +:+ q)
    with (String c' ((p +:+ String c EmptyString) +:+ q)).
  change (String c' p +:+ String c q) with (String c' (p +:+ String c q)).
  by rewrite IH.
Qed.

(** The digits that the loop of [formatBits] puts before [a]. *)
Lemma formatBits_digits (fuel : nat) :
  ∀ (u : N) (a : string),
    u < 16 ^ N.of_nat (S fuel) →
    ∃ pre,
      strconv.formatBits fuel u a = pre +:+ a ∧
      allLowerHex pre = true ∧
      (1 <= String.length pre <= S fuel)%nat ∧
      ((u = 0 ∧ pre = "0"%string) ∨ ∃ c s', pre = String c s' ∧ c ≠ "0"%char).
Proof.
  assert (Hbase : ∀ u a, u < 16 →
    ∃ pre, String (strconv.digit u) a = pre +:+ a ∧ allLowerHex pre = true ∧
           String.length pre = 1%nat ∧
           ((u = 0 ∧ pre = "0"%string) ∨ ∃ c s', pre = String c s' ∧ c ≠ "0"%char)).
  { intros u a Hu. exists (String (strconv.digit u) EmptyString).
    destruct (digit_lower_hex u Hu) as [Hhex Hnz].
    split_and!; [done|by cbn; rewrite Hhex|done|].
    destruct (decide (u = 0)) as [->|Hu0]; [by left|right; eauto]. }
  induction fuel as [|fuel IH]; intros u a Hu; cbn [strconv.formatBits].
  - change (16 ^ N.of_nat 1) with 16 in Hu.
    destruct (Hbase u a Hu) as (pre & ? & ? & Hlen & ?). exists pre.
    split_and!; [done..|lia|lia|done].
  - destruct (N.leb_spec 16 u) as [Hge|Hlt].
    + rewrite N.shiftr_div_pow2. change (2 ^ 4) with 16.
      change 15 with (N.ones 4). rewrite N.land_ones. change (2 ^ 4) with 16.
      pose proof (N.mod_lt u 16 ltac:(lia)) as Hm.
      assert (Hdiv : u / 16 < 16 ^ N.of_nat (S fuel)).
      { apply N.Div0.div_lt_upper_bound.
        rewrite (Nat2N.inj_succ (S fuel)), N.pow_succ_r' in Hu. lia. }
      assert (Hpos : u / 16 ≠ 0).
      { intros H0. apply N.div_small_iff in H0; lia. }
      destruct (IH (u / 16) (String (strconv.digit (u mod 16)) a) Hdiv)
        as (pre & Heq & Hhex & Hlen & Hhead).
      exists (pre +:+ String (strconv.digit (u mod 16)) EmptyString).
      split_and!.
      * by rewrite Heq, string_app_snoc.
      * rewrite allLowerHex_app, Hhex. cbn.
        by rewrite (proj1 (digit_lower_hex _ Hm)).
      * rewrite string_length_app. cbn. lia.
      * rewrite string_length_app. cbn. lia.
      * right. destruct Hhead as [[? _]|(c & s' & -> & Hc)]; [done|].
        exists c, (s' +:+ String (strconv.digit (u mod 16)) EmptyString). by split.
    + destruct (Hbase u a Hlt) as (pre & ? & ? & Hlen & ?). exists pre.
      split_and!; [done..|lia|lia|done].
Qed.

Lemma string_app_empty (p : string) : p +:+ EmptyString = p.
Proof.
  induction p as [|c p IH]; [done|].
  change (String c p +:+ EmptyString) with (String c (p +:+ EmptyString)).
  by rewrite IH.
Qed.

Lemma FormatUint16_canonicalHex (u : N) :
  u < 2 ^ 64 → canonicalHex (strconv.FormatUint16 u).
Proof.
  intros Hu. unfold strconv.FormatUint16.
  destruct (formatBits_digits 15 u EmptyString) as (pre & Heq & Hhex & Hlen & Hhead).
  { change (16 ^ N.of_nat 16) with (2 ^ 64). lia. }
  rewrite Heq, string_app_empty. split_and!; [done|lia|lia|].
  destruct Hhead as [[_ ->]|?]; [by left|by right].
Qed.

(** X11. The wire format of the values: for a span with 64-bit
    identifiers, every binding that [Inject] leaves in an empty text map
    is the key of a field with the field's identifier as its shortest
    base-16 numeral in small letters (one to sixteen digits, no leading
    zero), which denotes the identifier. *)
Theorem Inject_writes_canonical_hex (span : tracer.Span) (m' : gmap string string)
    (k v : string) :
  uint64IDs span →
  Tracer.Inject (OwnSpanContext (Span_Context span)) HTTPHeaders (TextMapCarrier ∅)
  = (TextMapCarrier m', None) →
  m' !! k = Some v →
  ∃ f, k = fieldKey f ∧ canonicalHex v ∧ hexValue v = Some (fieldOfSpan f span).
Proof.
  intros Hids. rewrite Tracer_Inject_written. intros [= <-] Hkv.
  apply written_lookup in Hkv as [(f & -> & -> & _)|[_ Hkv]];
    [|by rewrite lookup_empty in Hkv].
  exists f. split_and!; [done|by apply FormatUint16_canonicalHex|].
  pose proof (ParseUint16_FormatUint16 _ (Hids f)) as Hparse.
  pose proof (ParseUint16_hexValue (strconv.FormatUint16 (fieldOfSpan f span))) as Hspec.
  destruct (hexValue (strconv.FormatUint16 (fieldOfSpan f span))) as [n|];
    [|by rewrite Hparse in Hspec].
  rewrite Hparse in Hspec. destruct (n <? 2 ^ 64); congruence.
Qed.

(** * Further properties of the span wrapper *)

Section Tagging.
Context `{Runtime}.

Lemma SetTag_float (key : string) (t : float) (s : tracer.Span) :
  Span.SetTag key (VFloat64 t) s = tracer.SetMetric key t s.
Proof. reflexivity. Qed.

(** [SetTag] is one of four updates of the span. *)
Lemma SetTag_cases (key : string) (v : value) (s : tracer.Span) :
  (∃ t, v = VFloat64 t ∧ Span.SetTag key v s = tracer.SetMetric key t s) ∨
  ((∀ t, v ≠ VFloat64 t) ∧
   ((key = ServiceTagKey ∧ Span.SetTag key v s = set_Service (Sprint v) s) ∨
    (key = ResourceTagKey ∧ Span.SetTag key v s = set_Resource (Sprint v) s) ∨
    (key ≠ ServiceTagKey ∧ key ≠ ResourceTagKey ∧
     Span.SetTag key v s = tracer.SetMeta key (Sprint v) s))).
Proof.
  destruct v as [t|str|printed]; [left; by exists t|right..];
    (split; [done|]); rewrite SetTag_not_float by done;
    repeat case_decide; eauto 10.
Qed.

Lemma SetTag_other_key (k1 k2 : string) (v1 v2 : value) (s : tracer.Span) :
  k1 ≠ k2 →
  Span.SetTag k1 v1 (Span.SetTag k2 v2 s) = Span.SetTag k2 v2 (Span.SetTag k1 v1 s).
Proof.
  intros Hk.
  destruct (SetTag_cases k2 v2 s) as [(t2 & -> & _)|[Hv2 _]];
    destruct (SetTag_cases k1 v1 s) as [(t1 & -> & _)|[Hv1 _]];
    rewrite ?SetTag_float, ?SetTag_not_float by done;
    repeat case_decide; subst; try done;
    unfold tracer.SetMetric, tracer.SetMeta, set_Service, set_Resource; cbn;
    f_equal; by apply insert_insert_ne.
Qed.

(** X12. Tags under different keys do not interfere: two calls of
    [SetTag] with different keys give the same span in either order. *)
Theorem SetTag_commutes (k1 k2 : string) (v1 v2 : value) (s : tracer.Span) :
  k1 ≠ k2 →
  Span.SetTag k1 v1 (Span.SetTag k2 v2 s) = Span.SetTag k2 v2 (Span.SetTag k1 v1 s).
Proof. apply SetTag_other_key. Qed.

(** X13. The last value wins: of two calls of [SetTag] with the same key
    and with values that are both a [float64], or both not, the second
    alone gives the same span. *)
Theorem SetTag_twice (key : string) (v1 v2 : value) (s : tracer.Span) :
  ((∃ t, v1 = VFloat64 t) ↔ (∃ t, v2 = VFloat64 t)) →
  Span.SetTag key v2 (Span.SetTag key v1 s) = Span.SetTag key v2 s.
Proof.
  intros Hkind.
  destruct v1 as [t1|s1|p1], v2 as [t2|s2|p2];
    try (destruct Hkind as [Hk1 Hk2];
         first [by destruct (Hk1 ltac:(eauto)) | by destruct (Hk2 ltac:(eauto))]);
    rewrite ?SetTag_float, ?SetTag_not_float by done;
    repeat case_decide; subst; try done;
    unfold tracer.SetMetric, tracer.SetMeta, set_Service, set_Resource; cbn;
    f_equal; by apply insert_insert_eq.
Qed.

(** [SetTag] changes neither the name of the operation nor an
    identifier. *)
Lemma SetTag_identity (key : string) (v : value) (s : tracer.Span) :
  tracer.Name (Span.SetTag key v s) = tracer.Name s ∧
  ∀ f, fieldOfSpan f (Span.SetTag key v s) = fieldOfSpan f s.
Proof.
  destruct (SetTag_cases key v s) as [(t & -> & ->)|[_ [[_ ->]|[[_ ->]|(_ & _ & ->)]]]];
    (split; [done|by intros []]).
Qed.

Lemma LogFields_identity (fields : list Field) :
  ∀ s, tracer.Name (Span.LogFields fields s) = tracer.Name s ∧
       ∀ f, fieldOfSpan f (Span.LogFields fields s) = fieldOfSpan f s.
Proof.
  induction fields as [|[key val] rest IH]; intros s; [done|].
  cbn [Span.LogFields]. destruct (IH (Span.SetTag key val s)) as [Hname Hids].
  destruct (SetTag_identity key val s) as [Hname' Hids'].
  split; [congruence|]. intros f. by rewrite Hids, Hids'.
Qed.

Lemma LogKV_identity (keyValues : list value) (s : tracer.Span) :
  tracer.Name (Span.LogKV keyValues s) = tracer.Name s ∧
  ∀ f, fieldOfSpan f (Span.LogKV keyValues s) = fieldOfSpan f s.
Proof.
  unfold Span.LogKV. destruct (InterleavedKVToFields keyValues); [|done].
  apply LogFields_identity.
Qed.

(** [Inject] reads the three identifiers of the span and nothing else. *)
Lemma Inject_identifiers (s1 s2 : tracer.Span) (f : format) (c : carrier) :
  (∀ g, fieldOfSpan g s1 = fieldOfSpan g s2) →
  Tracer.Inject (OwnSpanContext (Span_Context s1)) f c
  = Tracer.Inject (OwnSpanContext (Span_Context s2)) f c.
Proof.
  intros Hids. unfold Tracer.Inject, textMapPropagator.Inject. cbn.
  pose proof (Hids FSpanID) as Hs. pose proof (Hids FTraceID) as Ht.
  pose proof (Hids FParentID) as Hp. cbn in Hs, Ht, Hp.
  by rewrite Hs, Ht, Hp.
Qed.

(** X14. Tags and logs do not travel and do not touch the identity of the
    span: after [SetTag], [LogFields] or [LogKV] the span has the name and
    the identifiers it had, and [Inject] of its context does to a carrier
    what it did before. *)
Theorem tagging_keeps_identity (s : tracer.Span) (key : string) (v : value)
    (fields : list Field) (keyValues : list value) (f : format) (c : carrier) :
  sameIdentity (Span.SetTag key v s) s f c ∧
  sameIdentity (Span.LogFields fields s) s f c ∧
  sameIdentity (Span.LogKV keyValues s) s f c.
Proof.
  assert (Hsame : ∀ s',
    (tracer.Name s' = tracer.Name s ∧ ∀ g, fieldOfSpan g s' = fieldOfSpan g s) →
    sameIdentity s' s f c).
  { intros s' [Hname Hids]. unfold sameIdentity.
    split_and!; [done|apply (Hids FSpanID)|apply (Hids FTraceID)
                |apply (Hids FParentID)|by apply Inject_identifiers]. }
  split_and!; apply Hsame;
    [apply SetTag_identity|apply LogFields_identity|apply LogKV_identity].
Qed.

(** *** [LogKV] on arguments that can be paired *)

Lemma pairFields_interleave (pairs : list (string * value)) :
  ∀ i, pairFields i (interleave pairs) = inl pairs.
Proof.
  induction pairs as [|[key val] rest IH]; intros i; [done|].
  cbn [interleave pairFields]. by rewrite IH.
Qed.

Lemma length_interleave (pairs : list (string * value)) :
  length (interleave pairs) = (2 * length pairs)%nat.
Proof. induction pairs as [|[key val] rest IH]; cbn; [done|]. rewrite IH. lia. Qed.

Lemma InterleavedKVToFields_interleave (pairs : list (string * value)) :
  InterleavedKVToFields (interleave pairs) = inl pairs.
Proof.
  unfold InterleavedKVToFields. rewrite length_interleave.
  replace (2 * length pairs)%nat with (0 + length pairs * 2)%nat by lia.
  rewrite Nat.Div0.mod_add. cbn. apply pairFields_interleave.
Qed.

Lemma cannotBePaired_or_interleave :
  ∀ keyValues : list value,
    cannotBePaired keyValues ∨ ∃ pairs, keyValues = interleave pairs.
Proof.
  fix IH 1. intros [|k [|val rest]].
  - right. by exists [].
  - left. left. by exists 0%nat.
  - destruct k as [t|key|printed].
    + left. right. exists 0%nat, (VFloat64 t). by split.
    + destruct (IH rest) as [[[h Hodd]|(i & v & Hlook & Hv)]|[pairs ->]].
      * left. left. exists (S h). cbn [length]. lia.
      * left. right. exists (S i), v. split; [|done].
        replace (2 * S i)%nat with (S (S (2 * i))) by lia. exact Hlook.
      * right. by exists ((key, val) :: pairs).
    + left. right. exists 0%nat, (VOther printed). by split.
Qed.

(** X15. [LogKV] applies all of its arguments or none: arguments that are
    the keys and values of a list of pairs have the effect of [SetTag] on
    each pair in turn, and any other arguments cannot be paired and have
    no effect. *)
Theorem LogKV_all_or_nothing (keyValues : list value) (s : tracer.Span) :
  (∃ pairs, keyValues = interleave pairs ∧
            Span.LogKV keyValues s = applyTags pairs s) ∨
  (cannotBePaired keyValues ∧ Span.LogKV keyValues s = s).
Proof.
  destruct (cannotBePaired_or_interleave keyValues) as [Hbad|[pairs ->]].
  - right. split; [done|]. unfold Span.LogKV.
    by destruct (InterleavedKVToFields_cannotBePaired _ Hbad) as [e ->].
  - left. exists pairs. split; [done|]. unfold Span.LogKV.
    rewrite InterleavedKVToFields_interleave. clear.
    revert s. induction pairs as [|[key val] rest IH]; intros s; [done|].
    cbn [Span.LogFields applyTags]. apply IH.
Qed.

End Tagging.

(** * Properties of [StartSpan] *)

Section Starting.
Context `{Runtime} `{Client}.

(** [range] visits every tag of a map once. *)
Hypothesis rangeTags_visits_each_tag_once :
  ∀ m : gmap string value, rangeTags m ≡ₚ map_to_list m.

(** *** The tags of the options *)

Lemma applyTags_permutation (l1 l2 : list (string * value)) :
  l1 ≡ₚ l2 → NoDup l1.*1 → ∀ s, applyTags l1 s = applyTags l2 s.
Proof.
  induction 1 as [|[k v] l1 l2 _ IH|[k1 v1] [k2 v2] l|l1 l2 l3 H12 IH1 H23 IH2];
    intros Hnd s.
  - done.
  - cbn [applyTags]. apply IH. by apply NoDup_cons in Hnd as [_ ?].
  - cbn [applyTags]. rewrite (SetTag_other_key k1 k2); [done|].
    cbn in Hnd. apply NoDup_cons in Hnd as [Hnin _].
    intros ->. apply Hnin. by left.
  - rewrite IH1 by done. apply IH2. by rewrite <- H12.
Qed.

Lemma applyTags_identity (tags : list (string * value)) :
  ∀ s, tracer.Name (applyTags tags s) = tracer.Name s ∧
       ∀ f, fieldOfSpan f (applyTags tags s) = fieldOfSpan f s.
Proof.
  induction tags as [|[key val] rest IH]; intros s; [done|].
  cbn [applyTags]. destruct (IH (Span.SetTag key val s)) as [Hname Hids].
  destruct (SetTag_identity key val s) as [Hname' Hids'].
  split; [congruence|]. intros f. by rewrite Hids, Hids'.
Qed.

Lemma carriesTag_SetTag (key : string) (v : value) (s : tracer.Span) :
  carriesTag key v (Span.SetTag key v s).
Proof.
  unfold carriesTag.
  destruct v as [t|str|printed]; [apply lookup_insert_eq|..];
    rewrite SetTag_not_float by done; repeat case_decide; try done;
    apply lookup_insert_eq.
Qed.

Lemma carriesTag_SetTag_other (key key' : string) (v v' : value) (s : tracer.Span) :
  key ≠ key' → carriesTag key v s → carriesTag key v (Span.SetTag key' v' s).
Proof.
  intros Hk. unfold carriesTag.
  destruct (SetTag_cases key' v' s)
    as [(t' & -> & ->)|[_ [[-> ->]|[[-> ->]|(Hs & Hr & ->)]]]];
    destruct v as [t|str|printed]; repeat case_decide; subst; try done;
    cbn; by rewrite ?lookup_insert_ne.
Qed.

Lemma applyTags_carries (tags : list (string * value)) (key : string) (v : value) :
  NoDup tags.*1 → (key, v) ∈ tags → ∀ s, carriesTag key v (applyTags tags s).
Proof.
  induction tags as [|[key' v'] rest IH]; intros Hnd Hin s;
    [by apply elem_of_nil in Hin|].
  cbn in Hnd. apply NoDup_cons in Hnd as [Hnin Hnd]. cbn [applyTags].
  apply elem_of_cons in Hin as [[= <- <-]|Hin]; [|by apply IH].
  clear IH. revert s Hnin. induction rest as [|[k w] rest IH]; intros s Hnin.
  - apply carriesTag_SetTag.
  - cbn [applyTags]. cbn in Hnin, Hnd.
    apply NoDup_cons in Hnd as [_ Hnd].
    apply not_elem_of_cons in Hnin as [Hne Hnin].
    rewrite (SetTag_other_key k key) by done.
    apply IH; done.
Qed.

(** X16. The tags of the options in any order: the span that
    [startSpanWithOptions] returns is the span it returns without tags,
    with [SetTag] applied for every tag of the options in any order
    whatever; and so it carries every tag of the options. *)
Theorem startSpan_tags_in_any_order (op : string) (opts : StartSpanOptions)
    (st : clientState) (order : list (string * value)) :
  order ≡ₚ map_to_list (Tags opts) →
  startSpanWithOptions op opts st
  = (applyTags order
       (startSpanWithOptions op (mkStartSpanOptions (References opts) ∅) st).1,
     (startSpanWithOptions op (mkStartSpanOptions (References opts) ∅) st).2) ∧
  ∀ key v, Tags opts !! key = Some v →
           carriesTag key v (startSpanWithOptions op opts st).1.
Proof.
  intros Horder.
  assert (Hempty : rangeTags (∅ : gmap string value) = []).
  { apply Permutation_nil_r. by rewrite rangeTags_visits_each_tag_once, map_to_list_empty. }
  assert (Hnd : NoDup (rangeTags (Tags opts)).*1).
  { rewrite rangeTags_visits_each_tag_once. apply NoDup_fst_map_to_list. }
  unfold startSpanWithOptions. cbn [References Tags]. rewrite Hempty.
  destruct (childOfReferences op (References opts) None st) as [[span|] st'].
  - cbn [applyTags fst snd]. split.
    + f_equal. apply applyTags_permutation; [|done].
      by rewrite rangeTags_visits_each_tag_once, Horder.
    + intros key v Hkv. apply applyTags_carries; [done|].
      rewrite rangeTags_visits_each_tag_once. by apply elem_of_map_to_list.
  - destruct (NewRootSpan op DefaultService DefaultResource st') as [root st''].
    cbn [applyTags fst snd]. split.
    + f_equal. apply applyTags_permutation; [|done].
      by rewrite rangeTags_visits_each_tag_once, Horder.
    + intros key v Hkv. apply applyTags_carries; [done|].
      rewrite rangeTags_visits_each_tag_once. by apply elem_of_map_to_list.
Qed.

(** *** The references of the options *)

Lemma childOfReferences_not_followed (op : string) (refs : list SpanReference) :
  Forall (λ ref, ¬ followed ref) refs →
  ∀ span st, childOfReferences op refs span st = (span, st).
Proof.
  induction 1 as [|ref rest Href _ IH]; intros span st; [done|].
  cbn [childOfReferences].
  destruct (RefType ref) eqn:Et, (ReferencedContext ref) as [p|] eqn:Ec;
    try apply IH.
  destruct Href. split; [done|by exists p].
Qed.

Lemma childOfReferences_app (op : string) (before after : list SpanReference) :
  ∀ span st,
    childOfReferences op (before ++ after) span st
    = childOfReferences op after (childOfReferences op before span st).1
        (childOfReferences op before span st).2.
Proof.
  induction before as [|ref before IH]; intros span st; [done|].
  cbn [app childOfReferences].
  destruct (RefType ref), (ReferencedContext ref) as [p|]; try apply IH.
  destruct (NewChildSpanFromContext op (ctx p) st) as [child st']. apply IH.
Qed.

Lemma startSpanWithOptions_followed (op : string) (opts : StartSpanOptions)
    (st : clientState) (before after : list SpanReference) (p : SpanContext) :
  References opts
  = before ++ mkSpanReference ChildOfRef (OwnSpanContext p) :: after →
  Forall (λ ref, ¬ followed ref) after →
  startSpanWithOptions op opts st
  = (applyTags (rangeTags (Tags opts))
       (NewChildSpanFromContext op (ctx p)
          (childOfReferences op before None st).2).1,
     (NewChildSpanFromContext op (ctx p)
        (childOfReferences op before None st).2).2).
Proof.
  intros Hrefs Hafter. unfold startSpanWithOptions.
  rewrite Hrefs, childOfReferences_app. cbn [childOfReferences RefType ReferencedContext].
  destruct (NewChildSpanFromContext op (ctx p) (childOfReferences op before None st).2)
    as [child st'].
  by rewrite (childOfReferences_not_followed op after Hafter).
Qed.

(** X17. The last reference followed is the parent: when the references
    of the options are [before], a reference of type [ChildOfRef] to a
    context [p] of this package, and references none of which is followed,
    the span returned is the child that the client makes of the span in
    [p], in the state the client is in after the references in [before],
    with the tags applied. *)
Theorem startSpan_last_child_of_wins (op : string) (opts : StartSpanOptions)
    (st : clientState) (before after : list SpanReference) (p : SpanContext) :
  References opts
  = before ++ mkSpanReference ChildOfRef (OwnSpanContext p) :: after →
  Forall (λ ref, ¬ followed ref) after →
  startSpanWithOptions op opts st
  = (applyTags (rangeTags (Tags opts))
       (NewChildSpanFromContext op (ctx p)
          (childOfReferences op before None st).2).1,
     (NewChildSpanFromContext op (ctx p)
        (childOfReferences op before None st).2).2).
Proof. apply startSpanWithOptions_followed. Qed.

(** X18. A root span by default: when no reference of the options is
    followed (there is none, or each is of another type than [ChildOfRef]
    or refers to a context that is not of this package), the span
    returned is the root span that the client makes for the operation
    with the default service and the resource ["/"], with the tags
    applied; [StartSpan] without options returns that root span as the
    client made it. *)
Theorem startSpan_root_by_default (op : string) (opts : StartSpanOptions)
    (st : clientState) :
  Forall (λ ref, ¬ followed ref) (References opts) →
  startSpanWithOptions op opts st
  = (applyTags (rangeTags (Tags opts)) (NewRootSpan op DefaultService "/" st).1,
     (NewRootSpan op DefaultService "/" st).2) ∧
  StartSpan op [] st = NewRootSpan op DefaultService "/" st.
Proof.
  intros Hrefs.
  assert (Hempty : rangeTags (∅ : gmap string value) = []).
  { apply Permutation_nil_r. by rewrite rangeTags_visits_each_tag_once, map_to_list_empty. }
  split.
  - unfold startSpanWithOptions, DefaultResource.
    rewrite (childOfReferences_not_followed op _ Hrefs).
    by destruct (NewRootSpan op DefaultService "/" st).
  - unfold StartSpan, startSpanWithOptions, DefaultResource. cbn. rewrite Hempty.
    by destruct (NewRootSpan op DefaultService "/" st).
Qed.

End Starting.

(** * From one process to the next *)

Section Continuation.
Context `{Runtime} `{Client}.

Hypothesis range_visits_each_entry_once :
  ∀ m : gmap string string, rangeOrder m ≡ₚ map_to_list m.

Hypothesis client_links_children : clientLinksChildren.

(** X19. The trace continues: when a span with 64-bit identifiers is
    injected into an empty text map and the context extracted from that
    map is given to [startSpanWithOptions] as the one [ChildOfRef]
    reference, then, for a client that links a child to the span in the
    context, the span started belongs to the trace of the span injected
    and has it as its parent, whatever the tags of the options. *)
Theorem trace_continues_in_next_process (upstream : tracer.Span) (op : string)
    (tags : gmap string value) (st : clientState) :
  uint64IDs upstream →
  ∃ c sc,
    Tracer.Inject (OwnSpanContext (Span_Context upstream)) HTTPHeaders (TextMapCarrier ∅)
    = (c, None) ∧
    Tracer.Extract HTTPHeaders c = (Some sc, None) ∧
    tracer.TraceID
      (startSpanWithOptions op
         (mkStartSpanOptions [mkSpanReference ChildOfRef (OwnSpanContext sc)] tags) st).1
    = tracer.TraceID upstream ∧
    tracer.ParentID
      (startSpanWithOptions op
         (mkStartSpanOptions [mkSpanReference ChildOfRef (OwnSpanContext sc)] tags) st).1
    = tracer.SpanID upstream.
Proof.
  intros Hids.
  set (parent := extractedSpan (tracer.SpanID upstream) (tracer.TraceID upstream)
                   (tracer.ParentID upstream)).
  exists (TextMapCarrier (written upstream ∅)), (Span_Context parent).
  split; [apply Tracer_Inject_written|].
  split; [apply (Extract_written range_visits_each_entry_once); [done|]
         ; intros k v g Hl; by rewrite lookup_empty in Hl|].
  rewrite (startSpanWithOptions_followed op
             (mkStartSpanOptions
                [mkSpanReference ChildOfRef (OwnSpanContext (Span_Context parent))] tags)
             st [] [] (Span_Context parent) eq_refl (Forall_nil_2 _)).
  subst parent.
  cbn [fst childOfReferences snd ctx Span_Context Tags]. unfold tracer.Span_Context.
  destruct (applyTags_identity (rangeTags tags)
              (NewChildSpanFromContext op
                 (Some (extractedSpan (tracer.SpanID upstream) (tracer.TraceID upstream)
                          (tracer.ParentID upstream))) st).1) as [_ Hsame].
  pose proof (Hsame FTraceID) as Ht. pose proof (Hsame FParentID) as Hp.
  cbn [fieldOfSpan] in Ht, Hp.
  destruct (client_links_children op
              (extractedSpan (tracer.SpanID upstream) (tracer.TraceID upstream)
                 (tracer.ParentID upstream)) st) as [Hct Hcp].
  split; [by rewrite Ht, Hct|by rewrite Hp, Hcp].
Qed.

End Continuation.

(** * Keys that name no field *)

Section OtherKeys.
Context `{Runtime}.

Lemma ForeachKey_filter_recognized (entries : list (string * string)) :
  ∀ x, ForeachKey entries textMapPropagator.handler x
       = ForeachKey (filter namesSomeField entries) textMapPropagator.handler x.
Proof.
  induction entries as [|[k v] rest IH]; intros x; [done|].
  destruct (decide (namesSomeField (k, v))) as [Hk|Hk].
  - rewrite filter_cons_True by done. cbn [ForeachKey].
    destruct (textMapPropagator.handler k v x) as [x' [e|]]; [done|apply IH].
  - rewrite filter_cons_False by done. cbn [ForeachKey].
    rewrite handler_unrecognized; [apply IH|].
    intros f Hf. apply Hk. unfold namesSomeField. cbn. destruct f; eauto.
Qed.

(** X20. Keys that name no field are ignored: what [Extract] returns for a
    text map, context and error, is what it returns for the bindings of
    the map whose keys name a recognized field, visited in the same
    order. *)
Theorem Extract_ignores_other_keys (m : gmap string string) :
  Tracer.Extract HTTPHeaders (TextMapCarrier m)
  = textMapPropagator.extractEntries (filter namesSomeField (rangeOrder m)).
Proof.
  unfold Tracer.Extract. rewrite decide_True by done.
  cbn [textMapPropagator.Extract]. unfold textMapPropagator.extractEntries.
  by rewrite ForeachKey_filter_recognized.
Qed.

End OtherKeys.

(** * The further properties at concrete inputs *)

Lemma uint64IDs_sampleSpan : uint64IDs sampleSpan.
Proof. intros []; cbn; lia. Defined.

Lemma uint64IDs_sampleRoot : uint64IDs sampleRoot.
Proof. intros []; cbn; lia. Defined.

Lemma uint64IDs_sampleOtherRoot : uint64IDs sampleOtherRoot.
Proof. intros []; cbn; lia. Defined.

Lemma sampleClient_rangeTags (m : gmap string value) :
  @rangeTags sampleClient m ≡ₚ map_to_list m.
Proof. reflexivity. Defined.

Lemma sampleClient_links_children : @clientLinksChildren sampleClient.
Proof. intros op parent st. split; reflexivity. Defined.

Lemma Extract_ids_in_range_witness :
  ∃ span,
    Span_Context (extractedSpan (2 ^ 64 - 1) 0 0) = Span_Context span ∧
    uint64IDs span.
Proof.
  apply (Extract_ids_in_range (H := sampleRuntime) HTTPHeaders
           (TextMapCarrier {["dd-trace-spanid" := "10000000000000000"]})
           _ (Some ErrSpanContextCorrupted)).
  vm_compute. reflexivity.
Defined.

Lemma round_trip_beside_other_keys_witness :
  ∃ m',
    Tracer.Inject (OwnSpanContext (Span_Context sampleRoot)) HTTPHeaders
      (TextMapCarrier {["Content-Type" := "text/plain"]})
    = (TextMapCarrier m', None) ∧
    ({["Content-Type" := "text/plain"]} : gmap string string) ⊆ m' ∧
    @Tracer.Extract sampleRuntime HTTPHeaders (TextMapCarrier m')
    = (Some (Span_Context (extractedSpan 205 171 0)), None).
Proof.
  apply (round_trip_beside_other_keys (H := sampleRuntime) sampleRuntime_range
           sampleRoot {["Content-Type" := "text/plain"]} uint64IDs_sampleRoot).
  intros k v f [<- <-]%lookup_singleton_Some. destruct f; discriminate.
Defined.

Lemma Extract_corrupted_iff_witness :
  (@Tracer.Extract sampleRuntime HTTPHeaders
     (TextMapCarrier {["dd-trace-parentid" := "0x12"]})).2
  = Some ErrSpanContextCorrupted.
Proof.
  apply (proj1 (Extract_corrupted_iff (H := sampleRuntime) sampleRuntime_range
                  {["dd-trace-parentid" := "0x12"]})).
  exists "dd-trace-parentid"%string, "0x12"%string, FParentID.
  split_and!; [apply lookup_singleton_eq|reflexivity|].
  unfold parseable. vm_compute. discriminate.
Defined.

Lemma Extract_decodes_witness :
  ∃ span,
    @Tracer.Extract sampleRuntime HTTPHeaders
      (TextMapCarrier {["DD-Trace-TraceID" := "00AB"]})
    = (Some (Span_Context span), None) ∧
    fieldOfSpan FTraceID span = 171.
Proof.
  apply (Extract_decodes (H := sampleRuntime) sampleRuntime_range
           {["DD-Trace-TraceID" := "00AB"]} "DD-Trace-TraceID" "00AB" FTraceID 171).
  - intros k v g [<- <-]%lookup_singleton_Some _. unfold parseable.
    vm_compute. reflexivity.
  - apply lookup_singleton_eq.
  - reflexivity.
  - by intros k v [<- <-]%lookup_singleton_Some _.
  - vm_compute. reflexivity.
  - lia.
Defined.

Lemma Inject_twice_witness :
  Tracer.Inject (OwnSpanContext (Span_Context sampleSpan)) HTTPHeaders
    (Tracer.Inject (OwnSpanContext (Span_Context sampleOtherRoot)) HTTPHeaders
       (TextMapCarrier ∅)).1
  = Tracer.Inject (OwnSpanContext (Span_Context sampleSpan)) HTTPHeaders
      (TextMapCarrier ∅).
Proof. apply Inject_twice. left. reflexivity. Defined.

Lemma Inject_root_keeps_parent_key_witness :
  @Tracer.Extract sampleRuntime HTTPHeaders
    (Tracer.Inject (OwnSpanContext (Span_Context sampleOtherRoot)) HTTPHeaders
       (Tracer.Inject (OwnSpanContext (Span_Context sampleSpan)) HTTPHeaders
          (TextMapCarrier ∅)).1).1
  = (Some (Span_Context (extractedSpan 3054 2748 18)), None).
Proof.
  apply (Inject_root_keeps_parent_key (H := sampleRuntime) sampleRuntime_range
           sampleSpan sampleOtherRoot ∅ uint64IDs_sampleSpan uint64IDs_sampleOtherRoot).
  - cbn. lia.
  - reflexivity.
  - intros k v f Hl. by rewrite lookup_empty in Hl.
Defined.

Lemma Extract_Inject_Extract_witness :
  ∃ c',
    Tracer.Inject (OwnSpanContext (Span_Context (extractedSpan 205 0 0))) HTTPHeaders
      (TextMapCarrier ∅) = (c', None) ∧
    @Tracer.Extract sampleRuntime HTTPHeaders c'
    = (Some (Span_Context (extractedSpan 205 0 0)), None).
Proof.
  apply (Extract_Inject_Extract (H := sampleRuntime) sampleRuntime_range HTTPHeaders
           (TextMapCarrier {["Dd-Trace-Spanid" := "00CD"]}) _ None).
  vm_compute. reflexivity.
Defined.

Lemma Inject_writes_canonical_hex_witness :
  ∃ f, fieldTraceID = fieldKey f ∧ canonicalHex "ab" ∧
       hexValue "ab" = Some (fieldOfSpan f sampleSpan).
Proof.
  apply (Inject_writes_canonical_hex sampleSpan (written sampleSpan ∅)
           fieldTraceID "ab" uint64IDs_sampleSpan).
  - apply Tracer_Inject_written.
  - vm_compute. reflexivity.
Defined.

Lemma SetTag_commutes_witness :
  @Span.SetTag sampleRuntime "env" (VString "prod")
    (@Span.SetTag sampleRuntime "service" (VString "billing") sampleRoot)
  = @Span.SetTag sampleRuntime "service" (VString "billing")
      (@Span.SetTag sampleRuntime "env" (VString "prod") sampleRoot).
Proof. apply SetTag_commutes. discriminate. Defined.

Lemma SetTag_twice_witness :
  @Span.SetTag sampleRuntime "env" (VString "prod")
    (@Span.SetTag sampleRuntime "env" (VOther "7") sampleRoot)
  = @Span.SetTag sampleRuntime "env" (VString "prod") sampleRoot.
Proof.
  apply SetTag_twice. split; intros [t Ht]; discriminate Ht.
Defined.

Lemma startSpan_tags_in_any_order_witness :
  @startSpanWithOptions sampleRuntime sampleClient "GET /cart"
    (mkStartSpanOptions [] sampleTags) 7
  = (@applyTags sampleRuntime (reverse (map_to_list sampleTags))
       (tracer.mkSpan "GET /cart" "localhost" "/" ∅ ∅ 7 7 0), 8) ∧
  @carriesTag sampleRuntime "env" (VString "prod")
    (@startSpanWithOptions sampleRuntime sampleClient "GET /cart"
       (mkStartSpanOptions [] sampleTags) 7).1.
Proof.
  destruct (@startSpan_tags_in_any_order sampleRuntime sampleClient
              sampleClient_rangeTags "GET /cart" (mkStartSpanOptions [] sampleTags) 7
              (reverse (map_to_list sampleTags)) (reverse_Permutation _))
    as [Hspan Htags].
  split; [exact Hspan|]. apply Htags. vm_compute. reflexivity.
Defined.

Lemma startSpan_last_child_of_wins_witness :
  tracer.ParentID
    (@startSpanWithOptions sampleRuntime sampleClient "charge" sampleChildOptions 7).1
  = 205.
Proof.
  rewrite (@startSpan_last_child_of_wins sampleRuntime sampleClient "charge"
             sampleChildOptions 7
             [mkSpanReference ChildOfRef (OwnSpanContext (Span_Context sampleOtherRoot))]
             [mkSpanReference FollowsFromRef (OwnSpanContext (Span_Context sampleRoot));
              mkSpanReference ChildOfRef ForeignSpanContext]
             (Span_Context sampleSpan) eq_refl).
  - reflexivity.
  - repeat constructor.
    + intros [Ht _]. discriminate Ht.
    + intros [_ [p Hp]]. discriminate Hp.
Defined.

Lemma startSpan_root_by_default_witness :
  @startSpanWithOptions sampleRuntime sampleClient "charge" sampleRootOptions 7
  = (tracer.mkSpan "charge" "localhost" "/" ∅ ∅ 7 7 0, 8).
Proof.
  rewrite (proj1 (@startSpan_root_by_default sampleRuntime sampleClient
                    sampleClient_rangeTags "charge" sampleRootOptions 7
                    ltac:(repeat constructor;
                          [intros [Ht _]; discriminate Ht
                          |intros [_ [p Hp]]; discriminate Hp]))).
  reflexivity.
Defined.

Lemma trace_continues_in_next_process_witness :
  ∃ c sc,
    Tracer.Inject (OwnSpanContext (Span_Context sampleSpan)) HTTPHeaders (TextMapCarrier ∅)
    = (c, None) ∧
    @Tracer.Extract sampleRuntime HTTPHeaders c = (Some sc, None) ∧
    tracer.TraceID
      (@startSpanWithOptions sampleRuntime sampleClient "charge"
         (mkStartSpanOptions [mkSpanReference ChildOfRef (OwnSpanContext sc)] sampleTags) 7).1
    = 171 ∧
    tracer.ParentID
      (@startSpanWithOptions sampleRuntime sampleClient "charge"
         (mkStartSpanOptions [mkSpanReference ChildOfRef (OwnSpanContext sc)] sampleTags) 7).1
    = 205.
Proof.
  apply (@trace_continues_in_next_process sampleRuntime sampleClient
           sampleRuntime_range sampleClient_links_children sampleSpan "charge"
           sampleTags 7 uint64IDs_sampleSpan).
Defined.
